(** * simple-websocket: the connection adapter of [ws.py]

    A shallow embedding of [simple_websocket/ws.py]: the methods [send],
    [receive], [close], [_thread] and [_handle_events] of [Base], and
    [handshake], [close] and the constructor of [Client].  Of [Server]
    only the role is kept, in [is_server].

    The wsproto protocol engine ([WSConnection]) is not part of the
    repository; it is an interface ([Engine]) over which every definition
    is parametric.  The socket is a small explicit model: a log of the
    writes, and a switch that makes writes fail.  Exceptions are values of
    [exn]; a method is a function from the object's state to an outcome
    and the new state. *)

From Stdlib Require Import List Bool Arith ZArith Lia.
From Stdlib Require Import Strings.String Strings.Byte DecimalString.
From Stdlib Require Import Strings.Ascii.
Import ListNotations.
Local Open Scope string_scope.
Local Open Scope list_scope.

Set Implicit Arguments.

(** ** Python values *)

Definition bytes := list byte.

(** The objects that are not [bytes]: what [send] turns into text with
    [str], and what [close] tests for truth in [reason or ...]. *)
Inductive pyobj :=
| PyNone
| PyBool (b : bool)
| PyInt (n : Z)
| PyStr (s : string).

(** What the caller hands to [send]: [isinstance(data, bytes)] or not. *)
Inductive data :=
| Bytes (b : bytes)
| Obj (o : pyobj).

(** [str(o)]. *)
Definition py_str (o : pyobj) : string :=
  match o with
  | PyNone => "None"
  | PyBool true => "True"
  | PyBool false => "False"
  | PyInt n => NilZero.string_of_int (Z.to_int n)
  | PyStr s => s
  end.

(** Truth value of an object, as [or] tests it. *)
Definition truthy (o : pyobj) : bool :=
  match o with
  | PyNone => false
  | PyBool b => b
  | PyInt n => negb (n =? 0)%Z
  | PyStr s => negb (String.eqb s "")
  end.

(** [a or b]. *)
Definition py_or (a b : pyobj) : pyobj := if truthy a then a else b.

(** [CloseReason.NORMAL_CLOSURE]. *)
Definition NORMAL_CLOSURE : pyobj := PyInt 1000.

(** ** Exceptions and outcomes *)

Inductive oserror := BrokenPipeError | ConnectionResetError | OtherOSError.

Inductive exn :=
| ConnectionError (status_code : Z)
| ConnectionClosed
| LocalProtocolError
| OSError (k : oserror).

(** How a call ends: it returns, it raises, or it never comes back (a wait
    with no timeout that nothing ends, a read nothing answers). *)
Inductive outcome (A : Type) :=
| Return (a : A)
| Raise (e : exn)
| Block.
Arguments Raise {A} e.
Arguments Block {A}.

(** ** wsproto events *)

Inductive event :=
| Request (host target : string)
| AcceptConnection
| RejectConnection (status_code : Z)
| CloseConnection (code reason : pyobj)
| Ping (payload : bytes)
| Pong (payload : bytes)
| TextMessage (text : string)
| BytesMessage (payload : bytes)
| Message (payload : bytes).

(** An entry of [input_buffer]: the [data] of a [TextMessage] (a [str]) or
    of a [BytesMessage] (a [bytes]). *)
Inductive payload :=
| Text (s : string)
| Binary (b : bytes).

(** What [ws.send] gives back: the encoded bytes, or [LocalProtocolError]. *)
Inductive sent :=
| Encoded (b : bytes)
| ProtocolError.

(** The protocol engine, [WSConnection], as the adapter uses it.  Feeding
    bytes gives the events decoded from them; the adapter keeps them in a
    queue ([ws_queue] below) from which the generator [ws.events()] yields,
    so that a [break] leaves the rest for the next loop over
    [ws.events()].  [receive_data] is taken to return: the adapter has no
    handler for what it could raise. *)
Class Engine (W : Type) := {
  ws_send : W -> event -> W * sent;
  ws_receive_data : W -> bytes -> W * list event;
  (** [event.response()] of a [Ping] or of a [CloseConnection]. *)
  response : event -> event
}.

(** ** The socket *)

Record socket := {
  sent_log : list bytes;        (* one entry per [sock.send] call *)
  tx_error : option oserror;    (* [Some k]: [sock.send] raises [k] *)
  closed : bool                 (* [sock.close()] was called *)
}.

Definition sock_send (s : socket) (b : bytes) : outcome unit * socket :=
  if closed s then (Raise (OSError OtherOSError), s)
  else
    match tx_error s with
    | Some k => (Raise (OSError k), s)
    | None =>
        (Return tt,
         {| sent_log := sent_log s ++ [b]; tx_error := tx_error s;
            closed := closed s |})
    end.

Definition sock_close (s : socket) : socket :=
  {| sent_log := sent_log s; tx_error := tx_error s; closed := true |}.

(** What a [sock.recv] call yields. *)
Inductive rx :=
| RxData (b : bytes)
| RxError (k : oserror).

(** ** The connection object *)

Section Adapter.

Context {W : Type} `{Engine W}.

Record conn := {
  sock : socket;
  input_buffer : list payload;
  event_flag : bool;            (* [self.event]: the flag of the Event *)
  connected : bool;
  is_server : bool;
  ws : W;
  ws_queue : list event         (* what [self.ws.events()] has yet to yield *)
}.

Definition with_sock (s : socket) (c : conn) : conn :=
  {| sock := s; input_buffer := input_buffer c; event_flag := event_flag c;
     connected := connected c; is_server := is_server c; ws := ws c;
     ws_queue := ws_queue c |}.

Definition with_input_buffer (b : list payload) (c : conn) : conn :=
  {| sock := sock c; input_buffer := b; event_flag := event_flag c;
     connected := connected c; is_server := is_server c; ws := ws c;
     ws_queue := ws_queue c |}.

Definition with_event_flag (f : bool) (c : conn) : conn :=
  {| sock := sock c; input_buffer := input_buffer c; event_flag := f;
     connected := connected c; is_server := is_server c; ws := ws c;
     ws_queue := ws_queue c |}.

Definition with_connected (k : bool) (c : conn) : conn :=
  {| sock := sock c; input_buffer := input_buffer c;
     event_flag := event_flag c; connected := k; is_server := is_server c;
     ws := ws c; ws_queue := ws_queue c |}.

Definition with_ws (w : W) (c : conn) : conn :=
  {| sock := sock c; input_buffer := input_buffer c;
     event_flag := event_flag c; connected := connected c;
     is_server := is_server c; ws := w; ws_queue := ws_queue c |}.

Definition with_ws_queue (q : list event) (c : conn) : conn :=
  {| sock := sock c; input_buffer := input_buffer c;
     event_flag := event_flag c; connected := connected c;
     is_server := is_server c; ws := ws c; ws_queue := q |}.

(** [self.ws.receive_data(in_data)]. *)
Definition receive_data (c : conn) (in_data : bytes) : conn :=
  let (w, evs) := ws_receive_data (ws c) in_data in
  with_ws_queue (ws_queue c ++ evs) (with_ws w c).

(** [self.event.set()] and [self.event.clear()]. *)
Definition event_set (c : conn) : conn := with_event_flag true c.
Definition event_clear (c : conn) : conn := with_event_flag false c.

(** [self.sock.send(out_data)]. *)
Definition conn_sock_send (c : conn) (b : bytes) : outcome unit * conn :=
  let (r, s) := sock_send (sock c) b in (r, with_sock s c).

(** ** [Base.send] *)

(** The event [send] hands to the engine. *)
Definition classify (d : data) : event :=
  match d with
  | Bytes b => Message b
  | Obj o => TextMessage (py_str o)
  end.

Definition send (c : conn) (d : data) : outcome unit * conn :=
  if negb (connected c) then (Raise ConnectionClosed, c)
  else
    match ws_send (ws c) (classify d) with
    | (w, ProtocolError) => (Raise LocalProtocolError, with_ws w c)
    | (w, Encoded out_data) => conn_sock_send (with_ws w c) out_data
    end.

(** ** [Base.close] and [Client.close] *)

(** The event [close] hands to the engine. *)
Definition close_event (reason message : pyobj) : event :=
  CloseConnection (py_or reason NORMAL_CLOSURE) message.

Definition close (c : conn) (reason message : pyobj) : outcome unit * conn :=
  match ws_send (ws c) (close_event reason message) with
  | (w, ProtocolError) => (Raise LocalProtocolError, with_ws w c)
  | (w, Encoded out_data) =>
      match conn_sock_send (with_ws w c) out_data with
      | (Raise (OSError BrokenPipeError), c') => (Return tt, c')
      | r => r
      end
  end.

Definition Client_close (c : conn) (reason message : pyobj)
  : outcome unit * conn :=
  match close c reason message with
  | (Return _, c') => (Return tt, with_sock (sock_close (sock c')) c')
  | r => r
  end.

(** ** [Base._handle_events] *)

(** The object together with the locals of [_handle_events]. *)
Record pass := {
  self : conn;
  out_data : bytes;
  keep_going : bool
}.

Definition on_self (f : conn -> conn) (p : pass) : pass :=
  {| self := f (self p); out_data := out_data p; keep_going := keep_going p |}.

Definition with_out_data (b : bytes) (p : pass) : pass :=
  {| self := self p; out_data := b; keep_going := keep_going p |}.

Definition with_keep_going (k : bool) (p : pass) : pass :=
  {| self := self p; out_data := out_data p; keep_going := k |}.

(** A statement of the [try] block: it completes, or it raises
    [LocalProtocolError]. *)
Inductive tried :=
| Completed (p : pass)
| Raised (p : pass).

(** [out_data += self.ws.send(e)]. *)
Definition accumulate (p : pass) (e : event) : tried :=
  match ws_send (ws (self p)) e with
  | (w, Encoded b) =>
      Completed (with_out_data (out_data p ++ b) (on_self (with_ws w) p))
  | (w, ProtocolError) => Raised (on_self (with_ws w) p)
  end.

(** The [if]/[elif] chain inside the [try]. *)
Definition try_body (p : pass) (e : event) : tried :=
  match e with
  | Request _ _ => accumulate p AcceptConnection
  | CloseConnection _ _ =>
      match (if is_server (self p) then accumulate p (response e)
             else Completed p) with
      | Completed p1 => Completed (with_keep_going false (on_self event_set p1))
      | Raised p1 => Raised p1
      end
  | Ping _ => accumulate p (response e)
  | TextMessage d =>
      Completed
        (on_self event_set
           (on_self (fun c => with_input_buffer (input_buffer c ++ [Text d]) c)
              p))
  | BytesMessage d =>
      Completed
        (on_self event_set
           (on_self
              (fun c => with_input_buffer (input_buffer c ++ [Binary d]) c) p))
  | _ => Completed p
  end.

(** The [except LocalProtocolError] clause. *)
Definition except_clause (p : pass) : pass :=
  with_keep_going false (on_self event_set (with_out_data [] p)).

(** One turn of the [for] loop. *)
Definition dispatch (p : pass) (e : event) : pass :=
  match try_body p e with
  | Completed p' => p'
  | Raised p' => except_clause p'
  end.

(** [for event in self.ws.events(): ...]: there is no [break]. *)
Fixpoint for_events (q : list event) (p : pass) : pass :=
  match q with
  | [] => p
  | e :: q' => for_events q' (dispatch p e)
  end.

Definition start_pass (c : conn) : pass :=
  {| self := with_ws_queue [] c; out_data := []; keep_going := true |}.

Definition handle_events (c : conn) : outcome bool * conn :=
  let p := for_events (ws_queue c) (start_pass c) in
  match out_data p with
  | [] => (Return (keep_going p), self p)
  | _ :: _ =>
      match conn_sock_send (self p) (out_data p) with
      | (Return _, c') => (Return (keep_going p), c')
      | (Raise e, c') => (Raise e, c')
      | (Block, c') => (Block, c')
      end
  end.

(** ** [Base._thread] *)

(** Where the background thread is once it has used up the reads it is
    given: out of its loop, inside [sock.recv], or dead of an exception
    nothing catches. *)
Inductive thread_end :=
| Exited
| Reading
| Crashed (e : exn).

(** [while self.connected: ...], over the results of the [sock.recv]
    calls to come. *)
Fixpoint thread_loop (incoming : list rx) (c : conn) : thread_end * conn :=
  if connected c then
    match incoming with
    | [] => (Reading, c)
    | RxError _ :: _ => (Exited, event_set (with_connected false c))
    | RxData in_data :: rest =>
        match handle_events (receive_data c in_data) with
        | (Return k, c') => thread_loop rest (with_connected k c')
        | (Raise e, c') => (Crashed e, c')
        | (Block, c') => (Reading, c')
        end
    end
  else (Exited, c).

(** The two statements before the loop: the first pass over the events the
    handshake left, and the signal the constructor waits for. *)
Definition thread_start (c : conn) : outcome unit * conn :=
  match handle_events c with
  | (Return k, c') => (Return tt, event_set (with_connected k c'))
  | (Raise e, c') => (Raise e, c')
  | (Block, c') => (Block, c')
  end.

Definition thread (incoming : list rx) (c : conn) : thread_end * conn :=
  match thread_start c with
  | (Return _, c') => thread_loop incoming c'
  | (Raise e, c') => (Crashed e, c')
  | (Block, c') => (Reading, c')
  end.

(** ** [Client.handshake] and the constructor *)

(** [for event in self.ws.events()] of the handshake: the outcome, and the
    events the generator has not yielded yet. *)
Fixpoint handshake_events (q : list event) : outcome unit * list event :=
  match q with
  | [] => (Return tt, [])
  | AcceptConnection :: q' => (Return tt, q')
  | RejectConnection status_code :: q' =>
      (Raise (ConnectionError status_code), q')
  | _ :: q' => handshake_events q'
  end.

Definition Client_handshake (host target : string) (incoming : list rx)
    (c : conn) : outcome unit * conn * list rx :=
  match ws_send (ws c) (Request host target) with
  | (w, ProtocolError) => (Raise LocalProtocolError, with_ws w c, incoming)
  | (w, Encoded out_data) =>
      match conn_sock_send (with_ws w c) out_data with
      | (Return _, c1) =>
          match incoming with
          | [] => (Block, c1, [])
          | RxError k :: rest => (Raise (OSError k), c1, rest)
          | RxData in_data :: rest =>
              let c2 := receive_data c1 in_data in
              let (r, q) := handshake_events (ws_queue c2) in
              (r, with_ws_queue q c2, rest)
          end
      | (r, c1) => (r, c1, incoming)
      end
  end.

(** The object as [Base.__init__] sets it up before the handshake. *)
Definition new_conn (s : socket) (server : bool) (w : W) : conn :=
  {| sock := s; input_buffer := []; event_flag := false; connected := false;
     is_server := server; ws := w; ws_queue := [] |}.

(** [Client(url)], from the connected socket on: the handshake, then the
    thread's first statements, for which the constructor waits, then
    [self.event.clear()].  An exception of the handshake leaves the
    constructor: there is no object.  The wait is taken to end with the
    [self.event.set()] that follows the first pass; when that pass sets
    the signal itself (a message, a close or an error of the engine among
    the events the handshake left) the wait of the code can end before
    the pass is over, and nothing is stated of the constructor then. *)
Definition Client_init (host target : string) (s : socket) (w : W)
    (incoming : list rx) : outcome conn * list rx :=
  match Client_handshake host target incoming (new_conn s false w) with
  | (Return _, c, rest) =>
      match thread_start c with
      | (Return _, c') => (Return (event_clear c'), rest)
      | (_, c') =>
          (* the thread died before its [self.event.set()] *)
          if event_flag c' then (Return (event_clear c'), rest)
          else (Block, rest)
      end
  | (Raise e, _, rest) => (Raise e, rest)
  | (Block, _, rest) => (Block, rest)
  end.

(** ** The background thread as [receive] sees it

    While [receive] runs, the background thread writes to the fields the
    two threads share.  Each write is an [action]; the environment of a
    [receive] call is the list of the writes to come, each with the time
    (in ticks) that passes before it since the one before.  The
    statements of [receive] itself take no time, so that a write falls
    into one of its waits or after its return; a timeout counts ticks. *)

Inductive action :=
| Append (m : payload)          (* [self.input_buffer.append(event.data)] *)
| Notify                        (* [self.event.set()] *)
| Connected (k : bool).         (* [self.connected = ...] *)

Definition act (c : conn) (a : action) : conn :=
  match a with
  | Append m => with_input_buffer (input_buffer c ++ [m]) c
  | Notify => event_set c
  | Connected k => with_connected k c
  end.

Definition schedule := list (nat * action).

(** How [self.event.wait(timeout)] ends. *)
Inductive waited :=
| Woken                         (* returns [True] *)
| TimedOut                      (* returns [False] *)
| Forever.                      (* no timeout, and nobody sets the flag *)

Record wait_result := {
  how : waited;
  at_time : nat;
  env_left : schedule;
  conn_after : conn
}.

(** Waiting on a flag that is clear: [left] is what remains of the timeout
    ([None]: no limit), [now] the time spent in this [receive] call. *)
Fixpoint wait_clear (left : option nat) (env : schedule) (c : conn)
    (now : nat) : wait_result :=
  match env with
  | [] =>
      match left with
      | Some t =>
          {| how := TimedOut; at_time := now + t; env_left := [];
             conn_after := c |}
      | None =>
          {| how := Forever; at_time := now; env_left := [];
             conn_after := c |}
      end
  | (d, a) :: env' =>
      let expired :=
        match left with Some t => (t <=? d)%nat | None => false end in
      if expired then
        let t := match left with Some t => t | None => 0 end in
        {| how := TimedOut; at_time := now + t;
           env_left := (d - t, a) :: env'; conn_after := c |}
      else
        let left' :=
          match left with Some t => Some (t - d) | None => None end in
        match a with
        | Notify =>
            {| how := Woken; at_time := now + d; env_left := env';
               conn_after := act c a |}
        | _ => wait_clear left' env' (act c a) (now + d)
        end
  end.

(** [self.event.wait(timeout=timeout)]. *)
Definition event_wait (timeout : option nat) (env : schedule) (c : conn)
    (now : nat) : wait_result :=
  if event_flag c then
    {| how := Woken; at_time := now; env_left := env; conn_after := c |}
  else wait_clear timeout env c now.

(** ** [Base.receive] *)

(** A finished [receive] call: its outcome ([Return None] is the [None]
    the caller gets on a timeout), the object, the writes of the
    background thread that have not happened yet, and the time spent. *)
Record received := {
  result : outcome (option payload);
  after : conn;
  pending : schedule;
  elapsed : nat
}.

Definition is_empty {A} (l : list A) : bool :=
  match l with [] => true | _ => false end.

(** The body of [receive]; [None] when [fuel] turns of the [while] loop
    were not enough. *)
Fixpoint receive_loop (fuel : nat) (timeout : option nat) (env : schedule)
    (c : conn) (now : nat) : option received :=
  if connected c && is_empty (input_buffer c) then
    match fuel with
    | 0 => None
    | S fuel' =>
        let w := event_wait timeout env c now in
        match how w with
        | TimedOut =>
            Some {| result := Return None; after := conn_after w;
                    pending := env_left w; elapsed := at_time w |}
        | Forever =>
            Some {| result := Block; after := conn_after w;
                    pending := env_left w; elapsed := at_time w |}
        | Woken =>
            receive_loop fuel' timeout (env_left w)
              (event_clear (conn_after w)) (at_time w)
        end
    end
  else if negb (connected c) then
    Some {| result := Raise ConnectionClosed; after := c; pending := env;
            elapsed := now |}
  else
    match input_buffer c with
    | m :: rest =>
        Some {| result := Return (Some m); after := with_input_buffer rest c;
                pending := env; elapsed := now |}
    | [] =>
        (* [pop(0)] of an empty list: the loop never leaves it so *)
        Some {| result := Block; after := c; pending := env; elapsed := now |}
    end.

(** [receive(timeout)]: a wait that returns [True] either found the flag
    set, which only the first can, or used up a write of the schedule. *)
Definition receive (timeout : option nat) (env : schedule) (c : conn)
  : option received :=
  receive_loop (S (S (List.length env))) timeout env c 0.

(** ** Vocabulary of the statements *)

(** The application messages of a batch of events, in the order of the
    batch. *)
Fixpoint messages_of (q : list event) : list payload :=
  match q with
  | [] => []
  | TextMessage d :: q' => Text d :: messages_of q'
  | BytesMessage d :: q' => Binary d :: messages_of q'
  | _ :: q' => messages_of q'
  end.

(** The messages a list of writes appends. *)
Fixpoint appended (l : list action) : list payload :=
  match l with
  | [] => []
  | Append m :: l' => m :: appended l'
  | _ :: l' => appended l'
  end.

(** The writes to the shared fields that one turn of the [for] loop
    makes, and those of the whole loop. *)
Definition writes (p : pass) (e : event) : list action :=
  match e with
  | TextMessage d => [Append (Text d); Notify]
  | BytesMessage d => [Append (Binary d); Notify]
  | CloseConnection _ _ => [Notify]
  | _ => match try_body p e with Raised _ => [Notify] | Completed _ => [] end
  end.

Fixpoint pass_writes (q : list event) (p : pass) : list action :=
  match q with
  | [] => []
  | e :: q' => writes p e ++ pass_writes q' (dispatch p e)
  end.

(** Whether a turn of the loop over [q], started in [p], ends in the
    [except] clause. *)
Fixpoint raises (q : list event) (p : pass) : bool :=
  match q with
  | [] => false
  | e :: q' =>
      match try_body p e with
      | Raised _ => true
      | Completed p' => raises q' p'
      end
  end.

(** [n] calls of [receive] one after the other, each with the same
    timeout: the outcomes, the object and the schedule that is left.
    [None] as in [receive_loop]. *)
Fixpoint receive_many (n : nat) (timeout : option nat) (env : schedule)
    (c : conn) : option (list (outcome (option payload)) * conn * schedule) :=
  match n with
  | 0 => Some ([], c, env)
  | S n' =>
      match receive timeout env c with
      | None => None
      | Some r =>
          match receive_many n' timeout (pending r) (after r) with
          | None => None
          | Some (rs, c', env') => Some (result r :: rs, c', env')
          end
      end
  end.

(** The schedule after a wait of [t] ticks during which nothing is
    written. *)
Definition later (t : nat) (env : schedule) : schedule :=
  match env with
  | [] => []
  | (d, a) :: env' => (d - t, a) :: env'
  end.

(** Nothing is written during the first [t] ticks. *)
Definition quiet_for (t : nat) (env : schedule) : Prop :=
  match env with
  | [] => True
  | (d, _) :: _ => t <= d
  end.

(** Two objects agree on the fields that [receive] reads. *)
Definition same_shared (c1 c2 : conn) : Prop :=
  input_buffer c1 = input_buffer c2 /\
  event_flag c1 = event_flag c2 /\
  connected c1 = connected c2.

(** An event that ends the scan of [Client.handshake]. *)
Definition ends_handshake (e : event) : bool :=
  match e with
  | AcceptConnection | RejectConnection _ => true
  | _ => false
  end.

End Adapter.

Arguments conn W : clear implicits.
Arguments pass W : clear implicits.
Arguments received W : clear implicits.
Arguments wait_result W : clear implicits.

(** ** A scripted engine

    A test double for the engine: [ws.send] answers from a script while it
    lasts and then encodes every event as one tag byte and the payload;
    [receive_data] ignores the bytes and hands out the next scripted batch
    of events. *)

Module Mock.

Record state := {
  script : list sent;
  feed : list (list event)
}.

Definition frame (e : event) : bytes :=
  match e with
  | Request _ target => x47 :: list_byte_of_string target
  | AcceptConnection => [x48]
  | RejectConnection _ => [x49]
  | CloseConnection code _ => x88 :: list_byte_of_string (py_str code)
  | Ping p => x89 :: p
  | Pong p => x8a :: p
  | TextMessage s => x81 :: list_byte_of_string s
  | BytesMessage b => x82 :: b
  | Message b => x82 :: b
  end.

Definition mock_send (w : state) (e : event) : state * sent :=
  match script w with
  | [] => (w, Encoded (frame e))
  | r :: rest => ({| script := rest; feed := feed w |}, r)
  end.

Definition mock_receive_data (w : state) (_ : bytes) : state * list event :=
  match feed w with
  | [] => (w, [])
  | evs :: rest => ({| script := script w; feed := rest |}, evs)
  end.

Definition mock_response (e : event) : event :=
  match e with
  | Ping p => Pong p
  | other => other
  end.

#[export] Instance engine : Engine state := {
  ws_send := mock_send;
  ws_receive_data := mock_receive_data;
  response := mock_response
}.

(** An engine with nothing scripted. *)
Definition idle : state := {| script := []; feed := [] |}.

Definition healthy : socket :=
  {| sent_log := []; tx_error := None; closed := false |}.

(** An open connection with a given buffer, flag, role and queue. *)
Definition open_conn (buf : list payload) (flag server : bool)
    (w : state) (q : list event) : conn state :=
  {| sock := healthy; input_buffer := buf; event_flag := flag;
     connected := true; is_server := server; ws := w; ws_queue := q |}.

(** A closed connection that still holds a message. *)
Definition closed_with_message : conn state :=
  with_connected false (open_conn [Text "a"] false false idle []).

(** A server whose batch is a message, a ping and the close that ends
    it. *)
Definition ping_then_close : conn state :=
  open_conn [] false true idle
    [TextMessage "bye"; Ping [x01]; CloseConnection (PyInt 1000) PyNone].

(** An endpoint whose rejection is decoded from the second read only. *)
Definition late_rejection : state :=
  {| script := []; feed := [[]; [RejectConnection 403]] |}.

(** A server whose batch is one ping. *)
Definition one_ping : conn state :=
  open_conn [] false true idle [Ping [x01]].

(** An endpoint that answers the request of a client with a rejection. *)
Definition rejecting : state :=
  {| script := []; feed := [[RejectConnection 403]] |}.

(** A server whose socket raises [BrokenPipeError] and whose engine
    decodes a ping from the next read. *)
Definition broken_pipe : socket :=
  {| sent_log := []; tx_error := Some BrokenPipeError; closed := false |}.

Definition ping_on_broken_pipe : conn state :=
  {| sock := broken_pipe; input_buffer := []; event_flag := false;
     connected := true; is_server := true;
     ws := {| script := []; feed := [[Ping [x01]]] |}; ws_queue := [] |}.

End Mock.

(** * The constructors

    The rest of [ws.py]: what [Server.__init__] and [Server.handshake] make
    of the WSGI environ.
    The texts are ASCII, as the names of CGI variables are: [capitalize]
    changes the case of the letters [a]-[z] and [A]-[Z] only, and
    [encode] is one byte for a character. *)

(** ** Texts *)

Open Scope char_scope.

Definition is_lower (a : ascii) : bool :=
  (97 <=? nat_of_ascii a)%nat && (nat_of_ascii a <=? 122)%nat.

Definition is_upper (a : ascii) : bool :=
  (65 <=? nat_of_ascii a)%nat && (nat_of_ascii a <=? 90)%nat.

Definition upper (a : ascii) : ascii :=
  if is_lower a then ascii_of_nat (nat_of_ascii a - 32) else a.

Definition lower (a : ascii) : ascii :=
  if is_upper a then ascii_of_nat (nat_of_ascii a + 32) else a.

Fixpoint map_string (f : ascii -> ascii) (s : string) : string :=
  match s with
  | EmptyString => EmptyString
  | String a s' => String (f a) (map_string f s')
  end.

(** [s.capitalize()]. *)
Definition capitalize (s : string) : string :=
  match s with
  | EmptyString => EmptyString
  | String a s' => String (upper a) (map_string lower s')
  end.

(** [s.split(sep)] for a separator of one character: never the empty
    list. *)
Fixpoint split (sep : ascii) (s : string) : list string :=
  match s with
  | EmptyString => [EmptyString]
  | String a s' =>
      if Ascii.eqb a sep then EmptyString :: split sep s'
      else
        match split sep s' with
        | part :: parts => String a part :: parts
        | [] => [String a EmptyString]
        end
  end.

(** [s[n:]]. *)
Fixpoint drop (n : nat) (s : string) : string :=
  match n, s with
  | 0, _ => s
  | S n', String _ s' => drop n' s'
  | S _, EmptyString => EmptyString
  end.

Definition CR : ascii := "013".
Definition LF : ascii := "010".
Definition CRLF : string := String CR (String LF EmptyString).

Close Scope char_scope.

(** [s.encode()]. *)
Definition encode (s : string) : bytes := list_byte_of_string s.

(** ** The WSGI environ *)

(** The objects of an environ, as far as [Server] looks at them: a [str],
    a socket, the input object of Eventlet (its [get_socket()] gives the
    socket), the input object of Gevent (its [raw._sock] is the socket),
    and [None]. *)
Inductive envval :=
| EnvStr (s : string)
| EnvSocket (s : socket)
| EnvEventletInput (s : socket)
| EnvGeventInput (s : socket)
| EnvNone.

(** A [dict] with its keys in the order of [items()]. *)
Definition environ := list (string * envval).

(** [environ.get(key)], [None] standing for the missing key. *)
Fixpoint env_get (key : string) (env : environ) : option envval :=
  match env with
  | [] => None
  | (k, v) :: env' => if String.eqb k key then Some v else env_get key env'
  end.

(** [key in environ]. *)
Definition env_in (key : string) (env : environ) : bool :=
  match env_get key env with Some _ => true | None => false end.

(** How the search for the socket in [Server.__init__] ends: with the
    object that becomes [sock], or with an exception. *)
Inductive obtained :=
| Obtained (v : envval)
| RuntimeError (msg : string)
| KeyError (key : string)
| AttributeError.

(** The [if]/[elif] chain of [Server.__init__]. *)
Definition Server_socket (env : environ) : obtained :=
  if env_in "werkzeug.socket" env then
    match env_get "werkzeug.socket" env with
    | Some v => Obtained v
    | None => Obtained EnvNone
    end
  else if env_in "gunicorn.socket" env then
    match env_get "gunicorn.socket" env with
    | Some v => Obtained v
    | None => Obtained EnvNone
    end
  else if env_in "eventlet.input" env then
    match env_get "eventlet.input" env with
    | Some (EnvEventletInput s) => Obtained (EnvSocket s)
    | _ => AttributeError
    end
  else
    match
      match env_get "SERVER_SOFTWARE" env with
      | Some v => v
      | None => EnvStr ""
      end
    with
    | EnvStr software =>
        if String.prefix "gevent" software then
          match env_get "wsgi.input" env with
          | None => KeyError "wsgi.input"
          | Some (EnvGeventInput s) => Obtained (EnvSocket s)
          | Some _ => AttributeError
          end
        else RuntimeError "Cannot obtain socket from WSGI environment."
    | _ => AttributeError
    end.

(** ** [Server.handshake] *)

(** The name of the header for an environ key [HTTP_...]. *)
Definition header_name (key : string) : string :=
  String.concat "-" (map capitalize (split "_" (drop 5 key))).

Section Handshake.

(** [f'{value}'] for a value that is not a [str]. *)
Variable format_object : envval -> string.

Definition format (v : envval) : string :=
  match v with
  | EnvStr s => s
  | other => format_object other
  end.

(** What one item of the environ adds to [in_data]. *)
Definition header_line (item : string * envval) : bytes :=
  let (key, value) := item in
  if String.prefix "HTTP_" key then
    encode (header_name key ++ ": " ++ format value ++ CRLF)
  else [].

Fixpoint header_lines (env : environ) : bytes :=
  match env with
  | [] => []
  | item :: env' => header_line item ++ header_lines env'
  end.

(** The request that [Server.handshake] feeds to the engine. *)
Definition Server_handshake_data (env : environ) : bytes :=
  (encode "GET / HTTP/1.1" ++ encode CRLF) ++ header_lines env ++ encode CRLF.

Context {W : Type} `{Engine W}.

Definition Server_handshake (env : environ) (c : conn W) : conn W :=
  receive_data c (Server_handshake_data env).

(** [Server(environ)], from the socket on: the handshake, the thread's
    first statements, for which the constructor waits, and
    [self.event.clear()]. *)
Definition Server_init (env : environ) (s : socket) (w : W)
  : outcome (conn W) :=
  match thread_start (Server_handshake env (new_conn s true w)) with
  | (Return _, c') => Return (event_clear c')
  | (_, c') =>
      if event_flag c' then Return (event_clear c') else Block
  end.

End Handshake.

(** ** More vocabulary *)

Definition is_close (e : event) : bool :=
  match e with CloseConnection _ _ => true | _ => false end.

Definition is_message (e : event) : bool :=
  match e with TextMessage _ | BytesMessage _ => true | _ => false end.

(** Whether a character occurs in a text. *)
Fixpoint occurs (a : ascii) (s : string) : bool :=
  match s with
  | EmptyString => false
  | String b s' => Ascii.eqb b a || occurs a s'
  end.

(** A text read from left to right, [_] turned into [-], a character at
    the start of the text or after a [_] put in upper case and the
    others in lower case. *)
Fixpoint train_case (start : bool) (s : string) : string :=
  match s with
  | EmptyString => EmptyString
  | String a s' =>
      if Ascii.eqb a "_"%char then String "-"%char (train_case true s')
      else String (if start then upper a else lower a) (train_case false s')
  end.

Definition is_http_item (item : string * envval) : bool :=
  String.prefix "HTTP_" (fst item).

(** ** The engine of [ws.py]

    [ws.py] builds its engine itself, a [WSConnection] of wsproto, whose
    code is not in the repository.  Two facts about it are hypotheses of
    the statements that need them. *)

(** The frame parser of the engine stops at a close frame: a
    [CloseConnection] is the last event of its batch. *)
Fixpoint close_is_last (q : list event) : bool :=
  match q with
  | [] => true
  | e :: q' => if is_close e then is_empty q' else close_is_last q'
  end.

Section Refusal.

Context {W : Type} `{Engine W}.


End Refusal.

(** ** An engine that stops sending

    A second test double: the state is the number of replies the engine
    still encodes; after them every [send] raises. *)

Module Budget.




End Budget.

(** * Properties *)

Section Properties.

Context {W : Type} `{Engine W}.

Implicit Types (c : conn W) (p : pass W) (env : schedule).

(** ** Record updates *)

Lemma event_clear_clear c : event_flag c = false -> event_clear c = c.
Proof. destruct c; simpl; intros ->; reflexivity. Qed.

Lemma event_clear_set c : event_clear (event_set c) = event_clear c.
Proof. reflexivity. Qed.

(** ** The wait *)

(** A wait on a clear flag leaves a suffix of the schedule (up to the delay
    of its head) and has applied the writes before it; one that wakes has
    used up at least the [Notify]. *)
Lemma wait_clear_uses left env c now :
  exists used,
    map snd env = used ++ map snd (env_left (wait_clear left env c now)) /\
    input_buffer (conn_after (wait_clear left env c now))
    = input_buffer c ++ appended used /\
    (how (wait_clear left env c now) = Woken -> used <> []).
Proof.
  revert left c now.
  induction env as [|[d a] env IH]; intros left c now.
  - exists []. destruct left; simpl; rewrite app_nil_r; repeat split; discriminate.
  - cbn [wait_clear].
    destruct (match left with Some t => (t <=? d)%nat | None => false end).
    + exists []. simpl. rewrite app_nil_r. repeat split; discriminate.
    + destruct a as [m| |k].
      * destruct (IH (match left with Some t => Some (t - d) | None => None end)
                    (act c (Append m)) (now + d)) as (used & E & B & N).
        exists (Append m :: used). cbn [map snd app appended].
        rewrite E, B. cbn [act input_buffer with_input_buffer].
        rewrite <- app_assoc. repeat split. discriminate.
      * exists [Notify]. simpl. rewrite app_nil_r. repeat split. discriminate.
      * destruct (IH (match left with Some t => Some (t - d) | None => None end)
                    (act c (Connected k)) (now + d)) as (used & E & B & N).
        exists (Connected k :: used). cbn [map snd app appended].
        rewrite E, B. repeat split. discriminate.
Qed.

Lemma event_wait_uses timeout env c now :
  exists used,
    map snd env = used ++ map snd (env_left (event_wait timeout env c now)) /\
    input_buffer (conn_after (event_wait timeout env c now))
    = input_buffer c ++ appended used /\
    (how (event_wait timeout env c now) = Woken ->
     event_flag c = false -> used <> []).
Proof.
  unfold event_wait. destruct (event_flag c) eqn:F.
  - exists []. simpl. rewrite app_nil_r. repeat split. discriminate.
  - destruct (wait_clear_uses timeout env c now) as (used & E & B & N).
    exists used. repeat split; auto.
Qed.

(** ** [receive] returns *)

(** The loop has fuel enough when it has one turn for each write of the
    schedule, one for a flag found set, and one to time out. *)
Lemma receive_loop_fuel fuel timeout env c now :
  List.length env + (if event_flag c then 1 else 0) < fuel ->
  receive_loop fuel timeout env c now <> None.
Proof.
  revert env c now.
  induction fuel as [|fuel IH]; intros env c now L; [lia|].
  simpl.
  destruct (connected c && is_empty (input_buffer c)) eqn:G.
  - destruct (how (event_wait timeout env c now)) eqn:Hw; try discriminate.
    apply IH. simpl.
    destruct (event_wait_uses timeout env c now) as (used & E & _ & N).
    apply (f_equal (@List.length _)) in E.
    rewrite length_app, !length_map in E.
    destruct (event_flag c) eqn:F.
    + lia.
    + specialize (N Hw eq_refl). destruct used; [congruence|]. simpl in E. lia.
  - destruct (negb (connected c)); [discriminate|].
    destruct (input_buffer c); discriminate.
Qed.

Lemma receive_total timeout env c : receive timeout env c <> None.
Proof.
  unfold receive. apply receive_loop_fuel. destruct (event_flag c); lia.
Qed.

(** ** [receive] on a closed connection *)

Lemma receive_loop_closed fuel timeout env c now :
  connected c = false ->
  receive_loop fuel timeout env c now
  = Some {| result := Raise ConnectionClosed; after := c; pending := env;
            elapsed := now |}.
Proof. intros E. destruct fuel; simpl; rewrite E; reflexivity. Qed.

(** C1, as the code has it.  Once [connected] is false, every [receive]
    call raises [ConnectionClosed] at once, whatever [input_buffer] holds:
    the buffered messages stay where they are and no call returns them,
    and so it is for any number of calls one after the other. *)
Theorem receive_closed_raises timeout env c :
  connected c = false ->
  receive timeout env c
  = Some {| result := Raise ConnectionClosed; after := c; pending := env;
            elapsed := 0 |}
  /\ forall n,
       receive_many n timeout env c
       = Some (repeat (Raise ConnectionClosed) n, c, env).
Proof.
  intros E.
  assert (R : receive timeout env c
              = Some {| result := Raise ConnectionClosed; after := c;
                        pending := env; elapsed := 0 |})
    by (apply receive_loop_closed; exact E).
  split; [exact R|].
  induction n as [|n IH]; simpl; [reflexivity|].
  rewrite R. simpl. rewrite IH. reflexivity.
Qed.

(** ** [receive] pops the oldest entry *)

Lemma appended_app l1 l2 : appended (l1 ++ l2) = appended l1 ++ appended l2.
Proof.
  induction l1 as [|[m| |k] l1 IH]; simpl; rewrite ?IH; reflexivity.
Qed.

Lemma receive_loop_pop fuel timeout env c now m rest :
  connected c = true -> input_buffer c = m :: rest ->
  receive_loop fuel timeout env c now
  = Some {| result := Return (Some m); after := with_input_buffer rest c;
            pending := env; elapsed := now |}.
Proof. intros E B. destruct fuel; simpl; rewrite E, B; reflexivity. Qed.

Lemma receive_loop_returns_oldest timeout fuel : forall env c now r m,
  receive_loop fuel timeout env c now = Some r ->
  result r = Return (Some m) ->
  exists used,
    map snd env = used ++ map snd (pending r) /\
    input_buffer c ++ appended used = m :: input_buffer (after r).
Proof.
  induction fuel as [|fuel IH]; intros env c now r m; simpl;
    destruct (connected c && is_empty (input_buffer c)) eqn:G;
    try discriminate.
  - destruct (negb (connected c)).
    + intros [= <-]; discriminate.
    + destruct (input_buffer c) as [|m' rest] eqn:B;
        intros [= <-]; simpl; [discriminate|].
      intros [= ->]. exists []. simpl. rewrite app_nil_r. auto.
  - destruct (event_wait_uses timeout env c now) as (u1 & E1 & B1 & _).
    destruct (how (event_wait timeout env c now)).
    + intros R Hm. destruct (IH _ _ _ _ _ R Hm) as (u2 & E2 & B2).
      exists (u1 ++ u2). rewrite E1, E2, appended_app, !app_assoc.
      split; [reflexivity|].
      simpl in B2. rewrite B1 in B2. exact B2.
    + intros [= <-]; discriminate.
    + intros [= <-]; discriminate.
  - destruct (negb (connected c)).
    + intros [= <-]; discriminate.
    + destruct (input_buffer c) as [|m' rest] eqn:B;
        intros [= <-]; simpl; [discriminate|].
      intros [= ->]. exists []. simpl. rewrite app_nil_r. auto.
Qed.

Lemma receive_many_drains timeout env : forall buf c,
  connected c = true -> input_buffer c = buf ->
  receive_many (List.length buf) timeout env c
  = Some (map (fun m => Return (Some m)) buf, with_input_buffer [] c, env).
Proof.
  induction buf as [|m rest IH]; intros c E B; simpl.
  - rewrite <- B. destruct c; reflexivity.
  - unfold receive.
    rewrite receive_loop_pop with (m := m) (rest := rest) by assumption.
    simpl.
    rewrite (IH (with_input_buffer rest c)); [reflexivity|exact E|reflexivity].
Qed.

(** ** One turn of the [for] loop *)

Ltac turn p e :=
  unfold dispatch, try_body, accumulate, except_clause;
  destruct e; try destruct (is_server (self p)) eqn:?;
  repeat match goal with
         | |- context [ws_send ?w ?x] => destruct (ws_send w x) as [? [?|]]
         end; simpl.

Lemma dispatch_input_buffer p e :
  input_buffer (self (dispatch p e))
  = input_buffer (self p) ++ messages_of [e].
Proof. turn p e; rewrite ?app_nil_r; reflexivity. Qed.

Lemma dispatch_frame p e :
  connected (self (dispatch p e)) = connected (self p) /\
  sock (self (dispatch p e)) = sock (self p) /\
  is_server (self (dispatch p e)) = is_server (self p) /\
  ws_queue (self (dispatch p e)) = ws_queue (self p).
Proof. turn p e; repeat split; assumption. Qed.

Lemma dispatch_keep_going p e :
  keep_going p = false -> keep_going (dispatch p e) = false.
Proof. turn p e; auto. Qed.

Lemma dispatch_event_flag p e :
  event_flag (self p) = true -> event_flag (self (dispatch p e)) = true.
Proof. turn p e; auto. Qed.

Lemma dispatch_close p code reason :
  keep_going (dispatch p (CloseConnection code reason)) = false /\
  event_flag (self (dispatch p (CloseConnection code reason))) = true.
Proof.
  unfold dispatch, try_body, accumulate, except_clause.
  destruct (is_server (self p)); simpl; auto.
  destruct (ws_send _ _) as [? [?|]]; simpl; auto.
Qed.

Lemma dispatch_raised p e p' :
  try_body p e = Raised p' ->
  dispatch p e = except_clause p' /\
  keep_going (dispatch p e) = false /\
  event_flag (self (dispatch p e)) = true /\
  out_data (dispatch p e) = [].
Proof. unfold dispatch. intros ->. repeat split. Qed.

(** ** The whole loop *)

Lemma for_events_app q1 q2 p :
  for_events (q1 ++ q2) p = for_events q2 (for_events q1 p).
Proof. revert p. induction q1 as [|e q1 IH]; intros p; simpl; auto. Qed.

Lemma messages_of_app q1 q2 :
  messages_of (q1 ++ q2) = messages_of q1 ++ messages_of q2.
Proof.
  induction q1 as [|e q1 IH]; simpl; [reflexivity|].
  destruct e; simpl; rewrite ?IH; reflexivity.
Qed.

Lemma for_events_input_buffer q : forall p,
  input_buffer (self (for_events q p)) = input_buffer (self p) ++ messages_of q.
Proof.
  induction q as [|e q IH]; intros p.
  - simpl. rewrite app_nil_r; reflexivity.
  - cbn [for_events]. rewrite IH, dispatch_input_buffer, <- app_assoc.
    rewrite <- messages_of_app. reflexivity.
Qed.

Lemma for_events_frame q : forall p,
  connected (self (for_events q p)) = connected (self p) /\
  sock (self (for_events q p)) = sock (self p) /\
  is_server (self (for_events q p)) = is_server (self p) /\
  ws_queue (self (for_events q p)) = ws_queue (self p).
Proof.
  induction q as [|e q IH]; intros p; simpl; [auto|].
  destruct (IH (dispatch p e)) as (-> & -> & -> & ->).
  apply dispatch_frame.
Qed.

Lemma for_events_keep_going q : forall p,
  keep_going p = false -> keep_going (for_events q p) = false.
Proof.
  induction q as [|e q IH]; intros p K; simpl; [exact K|].
  apply IH, dispatch_keep_going, K.
Qed.

Lemma for_events_event_flag q : forall p,
  event_flag (self p) = true -> event_flag (self (for_events q p)) = true.
Proof.
  induction q as [|e q IH]; intros p K; simpl; [exact K|].
  apply IH, dispatch_event_flag, K.
Qed.

(** ** [_handle_events] as a whole *)

(** The write at the end changes only the socket. *)
Lemma handle_events_fields c :
  let p := for_events (ws_queue c) (start_pass c) in
  input_buffer (snd (handle_events c)) = input_buffer (self p) /\
  event_flag (snd (handle_events c)) = event_flag (self p) /\
  connected (snd (handle_events c)) = connected c /\
  ws (snd (handle_events c)) = ws (self p) /\
  ws_queue (snd (handle_events c)) = [].
Proof.
  intros p. unfold handle_events. fold p.
  destruct (for_events_frame (ws_queue c) (start_pass c)) as (C & _ & _ & Q).
  fold p in C, Q. simpl in C, Q.
  destruct (out_data p) as [|b bs]; simpl.
  - auto.
  - unfold conn_sock_send. destruct (sock_send _ _) as [[[]|e|] s]; simpl; auto.
Qed.

(** What [_handle_events] returns and writes when the socket takes the
    write. *)
Lemma handle_events_healthy c :
  closed (sock c) = false -> tx_error (sock c) = None ->
  let p := for_events (ws_queue c) (start_pass c) in
  fst (handle_events c) = Return (keep_going p) /\
  sent_log (sock (snd (handle_events c)))
  = sent_log (sock c)
    ++ (if is_empty (out_data p) then [] else [out_data p]).
Proof.
  intros C T p. unfold handle_events. fold p.
  destruct (for_events_frame (ws_queue c) (start_pass c)) as (_ & S & _ & _).
  fold p in S. simpl in S.
  destruct (out_data p) as [|b bs]; simpl.
  - rewrite S, app_nil_r. auto.
  - unfold conn_sock_send, sock_send. rewrite S, C, T. simpl. auto.
Qed.

(** Nothing to write: the socket is not touched. *)
Lemma handle_events_silent c :
  out_data (for_events (ws_queue c) (start_pass c)) = [] ->
  handle_events c
  = (Return (keep_going (for_events (ws_queue c) (start_pass c))),
     self (for_events (ws_queue c) (start_pass c))).
Proof. unfold handle_events. intros ->. reflexivity. Qed.

(** C3.  Delivery is first in, first out.  The loop of [_handle_events]
    appends the messages of a batch at the end of [input_buffer], in the
    order of the batch; a [receive] call that returns a message returns
    the oldest entry of the buffer (what it held at the call followed by
    what the background thread appended during the call) and leaves the
    rest; so the calls that follow a pass on an open connection return
    the buffered messages, then those of the batch, in that order. *)
Theorem receive_fifo :
  (forall q p,
     input_buffer (self (for_events q p))
     = input_buffer (self p) ++ messages_of q) /\
  (forall c,
     input_buffer (snd (handle_events c))
     = input_buffer c ++ messages_of (ws_queue c)) /\
  (forall timeout env c r m,
     receive timeout env c = Some r ->
     result r = Return (Some m) ->
     exists used,
       map snd env = used ++ map snd (pending r) /\
       input_buffer c ++ appended used = m :: input_buffer (after r)) /\
  (forall timeout env c,
     connected c = true ->
     receive_many (List.length (input_buffer c)) timeout env c
     = Some (map (fun m => Return (Some m)) (input_buffer c),
             with_input_buffer [] c, env)) /\
  (forall timeout env c c',
     connected c = true ->
     handle_events c = (Return true, c') ->
     receive_many
       (List.length (input_buffer c ++ messages_of (ws_queue c)))
       timeout env c'
     = Some (map (fun m => Return (Some m))
               (input_buffer c ++ messages_of (ws_queue c)),
             with_input_buffer [] c', env)).
Proof.
  assert (B : forall c, input_buffer (snd (handle_events c))
                        = input_buffer c ++ messages_of (ws_queue c)).
  { intros c. destruct (handle_events_fields c) as (-> & _).
    rewrite for_events_input_buffer. reflexivity. }
  split; [intros; apply for_events_input_buffer|].
  split; [exact B|].
  split; [intros timeout env c r m; apply receive_loop_returns_oldest|].
  split; [intros; apply receive_many_drains; auto|].
  intros timeout env c c' E R.
  pose proof (B c) as Bc.
  destruct (handle_events_fields c) as (_ & _ & C & _).
  rewrite R in Bc, C. simpl in Bc, C.
  rewrite <- Bc. apply receive_many_drains; congruence.
Qed.

(** ** Timeouts *)

(** A wait with a timeout of zero on a clear flag returns [False] at once
    and lets nothing of the schedule happen. *)
Lemma wait_clear_zero env c now :
  wait_clear (Some 0) env c now
  = {| how := TimedOut; at_time := now; env_left := env; conn_after := c |}.
Proof.
  destruct env as [|[d a] env]; simpl; rewrite Nat.add_0_r, ?Nat.sub_0_r;
    reflexivity.
Qed.

Lemma wait_clear_quiet t env c now :
  quiet_for t env ->
  wait_clear (Some t) env c now
  = {| how := TimedOut; at_time := now + t; env_left := later t env;
       conn_after := c |}.
Proof.
  destruct env as [|[d a] env]; simpl; [reflexivity|].
  intros L. apply Nat.leb_le in L. rewrite L. reflexivity.
Qed.

Lemma receive_loop_woken fuel timeout env c now :
  connected c = true -> input_buffer c = [] ->
  how (event_wait timeout env c now) = Woken ->
  receive_loop (S fuel) timeout env c now
  = receive_loop fuel timeout (env_left (event_wait timeout env c now))
      (event_clear (conn_after (event_wait timeout env c now)))
      (at_time (event_wait timeout env c now)).
Proof.
  intros E B Hw. cbn [receive_loop]. rewrite E, B. cbn [is_empty andb].
  rewrite Hw. reflexivity.
Qed.

(** C5.  With the connection open and the queue empty, [receive(0)]
    returns [None] (the no-data result, not an exception) without
    waiting: no time passes and no write of the background thread is
    awaited, whether or not a notification was pending.  And whenever a
    wait of the loop times out, at any turn and for any timeout, the call
    returns [None]; in particular when nothing is written for the length
    of the timeout. *)
Theorem receive_no_data :
  (forall env c,
     connected c = true -> input_buffer c = [] ->
     receive (Some 0) env c
     = Some {| result := Return None; after := event_clear c;
               pending := env; elapsed := 0 |}) /\
  (forall fuel timeout env c now,
     connected c = true -> input_buffer c = [] ->
     how (event_wait timeout env c now) = TimedOut ->
     receive_loop (S fuel) timeout env c now
     = Some {| result := Return None;
               after := conn_after (event_wait timeout env c now);
               pending := env_left (event_wait timeout env c now);
               elapsed := at_time (event_wait timeout env c now) |}) /\
  (forall t env c,
     connected c = true -> input_buffer c = [] -> event_flag c = false ->
     quiet_for t env ->
     receive (Some t) env c
     = Some {| result := Return None; after := c; pending := later t env;
               elapsed := t |}).
Proof.
  assert (T : forall fuel timeout env c now,
     connected c = true -> input_buffer c = [] ->
     how (event_wait timeout env c now) = TimedOut ->
     receive_loop (S fuel) timeout env c now
     = Some {| result := Return None;
               after := conn_after (event_wait timeout env c now);
               pending := env_left (event_wait timeout env c now);
               elapsed := at_time (event_wait timeout env c now) |}).
  { intros fuel timeout env c now E B Hw.
    cbn [receive_loop]. rewrite E, B. cbn [is_empty andb]. rewrite Hw.
    reflexivity. }
  split; [|split; [exact T|]].
  - intros env c E B. unfold receive.
    destruct (event_flag c) eqn:F.
    + (* a notification is pending: the first wait returns, the second
         times out *)
      assert (Hw : event_wait (Some 0) env c 0
                   = {| how := Woken; at_time := 0; env_left := env;
                        conn_after := c |})
        by (unfold event_wait; rewrite F; reflexivity).
      rewrite receive_loop_woken by (rewrite ?Hw; auto).
      rewrite Hw. cbn [how env_left conn_after at_time].
      rewrite T; auto; unfold event_wait; simpl; rewrite wait_clear_zero;
        reflexivity.
    + rewrite T; auto; unfold event_wait; rewrite F, wait_clear_zero;
        [|reflexivity].
      rewrite event_clear_clear by exact F. reflexivity.
  - intros t env c E B F Q. unfold receive.
    rewrite T; auto; unfold event_wait; rewrite F, wait_clear_quiet by exact Q;
      reflexivity.
Qed.

(** C9.  Every turn of the loop waits for the whole [timeout] again.  When
    the flag is set [d1], [d2], ... ticks after the start of the waits,
    each time before that wait's timeout [t] is over and each time with the
    connection still open and the queue still empty, the call returns
    [None] only after [d1 + d2 + ... + t] ticks: more than [t] as soon as
    one of the delays is not zero. *)
Theorem receive_timeout_rearmed t ds c :
  connected c = true -> input_buffer c = [] -> event_flag c = false ->
  Forall (fun d => d < t) ds ->
  receive (Some t) (map (fun d => (d, Notify)) ds) c
  = Some {| result := Return None; after := c; pending := [];
            elapsed := list_sum ds + t |}
  /\ (0 < list_sum ds -> t < list_sum ds + t).
Proof.
  intros E B F D. split; [|lia].
  unfold receive. rewrite length_map.
  assert (G : forall fuel now,
    List.length ds < fuel ->
    receive_loop fuel (Some t) (map (fun d => (d, Notify)) ds) c now
    = Some {| result := Return None; after := c; pending := [];
              elapsed := now + list_sum ds + t |}).
  { induction D as [|d ds Hd D IH]; intros fuel now L;
      (destruct fuel as [|fuel]; [simpl in L; lia|]).
    - cbn [receive_loop map]. rewrite E, B. cbn [is_empty andb].
      unfold event_wait. rewrite F. simpl. rewrite Nat.add_0_r. reflexivity.
    - cbn [receive_loop map]. rewrite E, B. cbn [is_empty andb].
      unfold event_wait. rewrite F. cbn [wait_clear].
      apply Nat.leb_gt in Hd. rewrite Hd.
      cbn [how env_left conn_after at_time act].
      rewrite event_clear_set, event_clear_clear by exact F.
      rewrite IH by (simpl in L; lia).
      replace (now + list_sum (d :: ds) + t) with (now + d + list_sum ds + t)
        by (simpl; lia).
      reflexivity. }
  rewrite G by lia. reflexivity.
Qed.

(** ** The loop of [_thread] *)

Lemma thread_loop_not_connected incoming c :
  connected c = false -> thread_loop incoming c = (Exited, c).
Proof. intros E. destruct incoming; simpl; rewrite E; reflexivity. Qed.

(** A pass that returns [False] ends the loop: the rest of the reads is
    never asked for. *)
Lemma thread_loop_stops c in_data rest :
  connected c = true ->
  fst (handle_events (receive_data c in_data)) = Return false ->
  thread_loop (RxData in_data :: rest) c
  = (Exited, with_connected false (snd (handle_events (receive_data c in_data)))).
Proof.
  intros E R. cbn [thread_loop]. rewrite E.
  destruct (handle_events (receive_data c in_data)) as [r c']. simpl in *.
  subst r. apply thread_loop_not_connected. reflexivity.
Qed.

(** A pass that returns [True] leaves [connected] true and the loop goes
    to its next read. *)
Lemma thread_loop_continues c in_data rest :
  connected c = true ->
  fst (handle_events (receive_data c in_data)) = Return true ->
  thread_loop (RxData in_data :: rest) c
  = thread_loop rest
      (with_connected true (snd (handle_events (receive_data c in_data)))).
Proof.
  intros E R. cbn [thread_loop]. rewrite E.
  destruct (handle_events (receive_data c in_data)) as [r c']. simpl in *.
  subst r. reflexivity.
Qed.

(** ** Replies *)

Lemma try_body_extends p e p' :
  try_body p e = Completed p' -> exists x, out_data p' = out_data p ++ x.
Proof.
  unfold try_body, accumulate.
  destruct e; try destruct (is_server (self p));
    repeat match goal with
           | |- context [ws_send ?w ?x] => destruct (ws_send w x) as [? [?|]]
           end;
    intros [= <-]; simpl; eauto; exists []; rewrite app_nil_r; reflexivity.
Qed.

(** While no turn raises, the bytes to write only grow. *)
Lemma for_events_extends q : forall p,
  raises q p = false -> exists x, out_data (for_events q p) = out_data p ++ x.
Proof.
  induction q as [|e q IH]; intros p; simpl.
  - exists []. rewrite app_nil_r. reflexivity.
  - unfold dispatch. destruct (try_body p e) as [p'|p'] eqn:T; [|discriminate].
    intros R. destruct (IH _ R) as (x & ->).
    destruct (try_body_extends _ _ T) as (y & ->).
    exists (y ++ x). rewrite app_assoc. reflexivity.
Qed.

(** ** Close events *)

Lemma close_is_last_app pre e post :
  close_is_last (pre ++ e :: post) = true -> is_close e = true -> post = [].
Proof.
  induction pre as [|x pre IH]; simpl; intros L C.
  - rewrite C in L. destruct post; [reflexivity|discriminate].
  - destruct (is_close x); [|exact (IH L C)].
    destruct pre; discriminate.
Qed.

Lemma handle_events_not_block c : fst (handle_events c) <> Block.
Proof.
  unfold handle_events, conn_sock_send, sock_send.
  destruct (out_data _); simpl; [discriminate|].
  destruct (closed _); simpl; [discriminate|].
  destruct (tx_error _); discriminate.
Qed.

(** What [_handle_events] returns is [keep_going], unless the write
    raises. *)
Lemma handle_events_result c :
  fst (handle_events c)
  = Return (keep_going (for_events (ws_queue c) (start_pass c))) \/
  exists e, fst (handle_events c) = Raise e.
Proof.
  unfold handle_events, conn_sock_send, sock_send.
  destruct (out_data _); simpl; [left; reflexivity|].
  destruct (closed _); simpl; [right; eexists; reflexivity|].
  destruct (tx_error _); simpl; [right; eexists; reflexivity|].
  left; reflexivity.
Qed.

(** A pass that does not return [True] is the last of the thread: the
    reads that follow it are never asked for. *)
Lemma thread_loop_last_pass c in_data rest :
  connected c = true ->
  fst (handle_events (receive_data c in_data)) <> Return true ->
  thread_loop (RxData in_data :: rest) c = thread_loop [RxData in_data] c /\
  fst (thread_loop (RxData in_data :: rest) c) <> Reading.
Proof.
  intros E N. cbn [thread_loop]. rewrite E.
  pose proof (handle_events_not_block (receive_data c in_data)) as NB.
  destruct (handle_events (receive_data c in_data)) as [[[]|e|] c'];
    simpl in *; try congruence.
  - rewrite !thread_loop_not_connected by reflexivity.
    split; [reflexivity|discriminate].
  - split; [reflexivity|discriminate].
Qed.

(** C2.  The engine ends a batch at the close.  On the
    [CloseConnection] event of such a batch the pass sets the signal and
    [keep_going = False]; the server role first adds the engine's bytes
    for [event.response()] to what the pass writes, and these bytes end
    the one write of the pass.  No event is dispatched after it: the
    buffer holds what it held and the messages that came before the
    close, and nothing more.  The pass never returns [True]: the thread
    makes no further read, and when the write goes through (or there is
    nothing to write) the pass returns [False], the thread stores
    [connected = False] and leaves its loop. *)
Theorem handle_close_event c pre code reason post :
  ws_queue c = pre ++ CloseConnection code reason :: post ->
  close_is_last (ws_queue c) = true ->
  let ev := CloseConnection code reason in
  let p1 := for_events pre (start_pass c) in
  let p := for_events (ws_queue c) (start_pass c) in
  post = [] /\
  p = dispatch p1 ev /\
  (is_server c = false ->
   dispatch p1 ev = with_keep_going false (on_self event_set p1)) /\
  (is_server c = true ->
   forall w b,
     ws_send (ws (self p1)) (response ev) = (w, Encoded b) ->
     dispatch p1 ev
     = with_keep_going false
         (on_self event_set
            (with_out_data (out_data p1 ++ b) (on_self (with_ws w) p1))) /\
     (closed (sock c) = false -> tx_error (sock c) = None -> b <> [] ->
      sent_log (sock (snd (handle_events c)))
      = sent_log (sock c) ++ [out_data p1 ++ b])) /\
  input_buffer (snd (handle_events c))
  = input_buffer c ++ messages_of pre /\
  keep_going p = false /\
  event_flag (snd (handle_events c)) = true /\
  fst (handle_events c) <> Return true /\
  (closed (sock c) = false -> tx_error (sock c) = None ->
   fst (handle_events c) = Return false) /\
  (out_data p = [] -> handle_events c = (Return false, self p)) /\
  (forall c0 in_data rest,
     connected c0 = true -> receive_data c0 in_data = c ->
     thread_loop (RxData in_data :: rest) c0
     = thread_loop [RxData in_data] c0 /\
     fst (thread_loop (RxData in_data :: rest) c0) <> Reading /\
     (fst (handle_events c) = Return false ->
      thread_loop (RxData in_data :: rest) c0
      = (Exited, with_connected false (snd (handle_events c))))).
Proof.
  intros Q L ev p1 p.
  assert (P0 : post = [])
    by (rewrite Q in L; exact (close_is_last_app _ _ _ L eq_refl)).
  subst post.
  assert (S1 : is_server (self p1) = is_server c)
    by (destruct (for_events_frame pre (start_pass c)) as (_ & _ & S & _);
        exact S).
  assert (P : p = dispatch p1 ev)
    by (unfold p, p1; rewrite Q, for_events_app; reflexivity).
  assert (K : keep_going p = false) by (rewrite P; apply dispatch_close).
  assert (N : fst (handle_events c) <> Return true).
  { destruct (handle_events_result c) as [R | (e & R)]; rewrite R.
    - fold p. rewrite K. discriminate.
    - discriminate. }
  destruct (handle_events_fields c) as (B & F & _). fold p in B, F.
  split; [reflexivity|]. split; [exact P|].
  split; [|split; [|split; [|split; [exact K|split; [|split; [exact N|split;
    [|split]]]]]]].
  - intros S. unfold dispatch, ev, try_body. rewrite S1, S. reflexivity.
  - intros S w b E.
    assert (D : dispatch p1 ev
                = with_keep_going false
                    (on_self event_set
                       (with_out_data (out_data p1 ++ b)
                          (on_self (with_ws w) p1))))
      by (unfold dispatch, ev, try_body, accumulate; rewrite S1, S;
          fold ev; rewrite E; reflexivity).
    split; [exact D|].
    intros C T Nb. destruct (handle_events_healthy c C T) as (_ & X).
    fold p in X. rewrite X, P, D. cbn [out_data with_keep_going on_self
      with_out_data].
    destruct (out_data p1 ++ b) eqn:Z; [|reflexivity].
    apply app_eq_nil in Z. destruct Z as (_ & Z). contradiction.
  - rewrite B. unfold p. rewrite for_events_input_buffer, Q, messages_of_app.
    simpl. rewrite app_nil_r. reflexivity.
  - rewrite F, P. apply dispatch_close.
  - intros C T. destruct (handle_events_healthy c C T) as (R & _).
    fold p in R. rewrite K in R. exact R.
  - intros O. rewrite (handle_events_silent c O). fold p. rewrite K.
    reflexivity.
  - intros c0 in_data rest E <-.
    destruct (thread_loop_last_pass c0 in_data rest E N) as (X & Y).
    split; [exact X|]. split; [exact Y|].
    intros R. apply thread_loop_stops; assumption.
Qed.

(** ** Protocol errors *)





(** ** Ping events *)

(** C8.  The turn of a [Ping] event leaves [input_buffer] as it is.  When
    the engine encodes [event.response()], the turn adds the bytes to what
    the pass will write and changes nothing else: neither the signal nor
    [keep_going] nor [connected].  If no later turn of the batch raises,
    the one write of the pass holds these bytes; and a batch that is just
    the ping has the pass write them and return [True], so that
    [connected] stays true and the thread goes on to its next read. *)
Theorem handle_ping c pre payload post w b :
  ws_queue c = pre ++ Ping payload :: post ->
  let p1 := for_events pre (start_pass c) in
  let p := for_events (ws_queue c) (start_pass c) in
  ws_send (ws (self p1)) (response (Ping payload)) = (w, Encoded b) ->
  input_buffer (self (dispatch p1 (Ping payload))) = input_buffer (self p1) /\
  dispatch p1 (Ping payload)
  = with_out_data (out_data p1 ++ b) (on_self (with_ws w) p1) /\
  input_buffer (self p)
  = input_buffer c ++ messages_of pre ++ messages_of post /\
  (raises post (dispatch p1 (Ping payload)) = false ->
   closed (sock c) = false -> tx_error (sock c) = None -> b <> [] ->
   exists b',
     sent_log (sock (snd (handle_events c)))
     = sent_log (sock c) ++ [out_data p1 ++ b ++ b']) /\
  (pre = [] -> post = [] ->
   closed (sock c) = false -> tx_error (sock c) = None -> b <> [] ->
   fst (handle_events c) = Return true /\
   sent_log (sock (snd (handle_events c))) = sent_log (sock c) ++ [b] /\
   input_buffer (snd (handle_events c)) = input_buffer c /\
   event_flag (snd (handle_events c)) = event_flag c /\
   forall c0 in_data rest,
     connected c0 = true -> receive_data c0 in_data = c ->
     thread_loop (RxData in_data :: rest) c0
     = thread_loop rest (with_connected true (snd (handle_events c))) /\
     connected (with_connected true (snd (handle_events c))) = true).
Proof.
  intros Q p1 p E.
  assert (D : dispatch p1 (Ping payload)
              = with_out_data (out_data p1 ++ b) (on_self (with_ws w) p1))
    by (unfold dispatch, try_body, accumulate; rewrite E; reflexivity).
  assert (P : p = for_events post (dispatch p1 (Ping payload)))
    by (unfold p, p1; rewrite Q, for_events_app; reflexivity).
  split; [rewrite D; reflexivity|]. split; [exact D|].
  split; [unfold p; rewrite for_events_input_buffer, Q, messages_of_app;
          reflexivity|].
  split.
  - intros R C T N.
    destruct (for_events_extends _ _ R) as (b' & X).
    rewrite <- P, D in X. simpl in X.
    destruct (handle_events_healthy c C T) as (_ & L). fold p in L.
    exists b'. rewrite L, X, <- app_assoc.
    destruct (out_data p1 ++ b ++ b') eqn:Z; [|reflexivity].
    apply app_eq_nil in Z. destruct Z as (_ & Z).
    apply app_eq_nil in Z. destruct Z as (Z & _). contradiction.
  - intros -> -> C T N.
    assert (X : p = with_out_data b (on_self (with_ws w) (start_pass c)))
      by (rewrite P, D; reflexivity).
    destruct (handle_events_healthy c C T) as (R & L). fold p in R, L.
    destruct (handle_events_fields c) as (B & F & _). fold p in B, F.
    rewrite X in R, L, B, F. simpl in R, L, B, F.
    split; [exact R|]. split.
    { rewrite L. destruct b; [contradiction|reflexivity]. }
    split; [exact B|]. split; [exact F|].
    intros c0 in_data rest E0 <-. split; [|reflexivity].
    apply thread_loop_continues; assumption.
Qed.

(** ** [send] *)

(** C6.  [send] raises [ConnectionClosed] exactly when [connected] is
    false, and then does nothing else.  On an open connection it hands the
    engine a [Message] of the bytes when the data are [bytes] and a
    [TextMessage] of [str(data)] otherwise, and writes what the engine
    encodes with one [sock.send]; [input_buffer] is not touched. *)
Theorem send_closed_iff c d :
  (fst (send c d) = Raise ConnectionClosed <-> connected c = false) /\
  (connected c = false -> send c d = (Raise ConnectionClosed, c)) /\
  (forall b, classify (Bytes b) = Message b) /\
  (forall o, classify (Obj o) = TextMessage (py_str o)) /\
  (connected c = true ->
   forall w out,
     ws_send (ws c) (classify d) = (w, Encoded out) ->
     closed (sock c) = false -> tx_error (sock c) = None ->
     send c d
     = (Return tt,
        with_sock {| sent_log := sent_log (sock c) ++ [out];
                     tx_error := None; closed := false |} (with_ws w c))) /\
  input_buffer (snd (send c d)) = input_buffer c.
Proof.
  unfold send, conn_sock_send, sock_send.
  destruct (connected c) eqn:E; simpl.
  - split.
    { split; [|discriminate].
      destruct (ws_send (ws c) (classify d)) as [w [out|]]; simpl;
        [|discriminate].
      destruct (closed (sock c)); [discriminate|].
      destruct (tx_error (sock c)); discriminate. }
    split; [discriminate|]. split; [reflexivity|]. split; [reflexivity|].
    split.
    + intros _ w out -> C T. simpl. rewrite C, T. reflexivity.
    + destruct (ws_send (ws c) (classify d)) as [w [out|]]; simpl;
        [|reflexivity].
      destruct (closed (sock c)); [reflexivity|].
      destruct (tx_error (sock c)); reflexivity.
  - repeat split; auto; discriminate.
Qed.

(** ** [close] *)

(** C10.  [0] and [None] are false for [or], and [close] with a reason
    that is false for [or] hands the engine a [CloseConnection] with code
    1000: the call is the call with reason 1000, in [Base] and in
    [Client], and what it writes is the engine's encoding of that
    event. *)
Theorem close_falsy_reason c reason message :
  truthy reason = false ->
  truthy (PyInt 0) = false /\
  truthy PyNone = false /\
  close_event reason message = CloseConnection (PyInt 1000) message /\
  close c reason message = close c (PyInt 1000) message /\
  Client_close c reason message = Client_close c (PyInt 1000) message /\
  (forall w b,
     ws_send (ws c) (CloseConnection (PyInt 1000) message) = (w, Encoded b) ->
     closed (sock c) = false -> tx_error (sock c) = None ->
     close c reason message
     = (Return tt,
        with_sock {| sent_log := sent_log (sock c) ++ [b];
                     tx_error := None; closed := false |} (with_ws w c))).
Proof.
  intros F.
  assert (E : close_event reason message = CloseConnection (PyInt 1000) message)
    by (unfold close_event, py_or; rewrite F; reflexivity).
  assert (C : close c reason message = close c (PyInt 1000) message)
    by (unfold close; rewrite E; reflexivity).
  repeat split; auto.
  - unfold Client_close. rewrite C. reflexivity.
  - intros w b S X T. unfold close. rewrite E, S.
    unfold conn_sock_send, sock_send. simpl. rewrite X, T. reflexivity.
Qed.

(** ** The handshake of the client *)

Lemma handshake_events_reject pre status post :
  existsb ends_handshake pre = false ->
  handshake_events (pre ++ RejectConnection status :: post)
  = (Raise (ConnectionError status), post).
Proof.
  induction pre as [|e pre IH]; simpl; [reflexivity|].
  destruct e; simpl; try discriminate; exact IH.
Qed.

(** The handshake never writes [connected]. *)
Lemma Client_handshake_connected host target incoming c :
  connected (snd (fst (Client_handshake host target incoming c)))
  = connected c.
Proof.
  unfold Client_handshake, conn_sock_send, receive_data.
  destruct (ws_send (ws c) (Request host target)) as [w [out|]]; simpl;
    [|reflexivity].
  destruct (sock_send _ _) as [[[]|e|] s]; simpl; try reflexivity.
  destruct incoming as [|[in_data|k] rest]; simpl; try reflexivity.
  destruct (ws_receive_data w in_data) as [w' evs]; simpl.
  destruct (handshake_events _); reflexivity.
Qed.

(** C7, as the code has it.  The handshake reads once.  When the request
    goes out and the first event of what this read gives that ends the
    handshake is a [RejectConnection] with status code [status],
    the handshake raises [ConnectionError status] with [connected] still
    false, and so does the constructor: it returns no object, the thread
    is not started and nothing more is read. *)
Theorem client_handshake_rejected
    host target s w out w1 in_data rest w2 pre status post :
  ws_send w (Request host target) = (w1, Encoded out) ->
  closed s = false -> tx_error s = None ->
  ws_receive_data w1 in_data = (w2, pre ++ RejectConnection status :: post) ->
  existsb ends_handshake pre = false ->
  fst (fst (Client_handshake host target (RxData in_data :: rest)
              (new_conn s false w)))
  = Raise (ConnectionError status) /\
  connected (snd (fst (Client_handshake host target (RxData in_data :: rest)
                         (new_conn s false w))))
  = false /\
  Client_init host target s w (RxData in_data :: rest)
  = (Raise (ConnectionError status), rest).
Proof.
  intros S C T R P.
  assert (X : Client_handshake host target (RxData in_data :: rest)
                (new_conn s false w)
              = (Raise (ConnectionError status),
                 with_ws_queue post
                   (with_ws w2
                      (with_sock {| sent_log := sent_log s ++ [out];
                                    tx_error := tx_error s;
                                    closed := closed s |}
                         (with_ws w1 (new_conn s false w)))),
                 rest)).
  { unfold Client_handshake. simpl. rewrite S.
    unfold conn_sock_send, sock_send. simpl. rewrite C, T.
    unfold receive_data. simpl. rewrite R. simpl.
    rewrite handshake_events_reject by exact P. reflexivity. }
  split; [rewrite X; reflexivity|].
  split; [rewrite X; reflexivity|].
  unfold Client_init. rewrite X. reflexivity.
Qed.

(** ** The pass as a sequence of writes *)

Lemma act_same_shared a c1 c2 :
  same_shared c1 c2 -> same_shared (act c1 a) (act c2 a).
Proof.
  intros (B & F & C). destruct a; unfold same_shared; simpl;
    rewrite ?B, ?F, ?C; auto.
Qed.

Lemma fold_act_same_shared l : forall c1 c2,
  same_shared c1 c2 -> same_shared (fold_left act l c1) (fold_left act l c2).
Proof.
  induction l as [|a l IH]; intros c1 c2 S; simpl; [exact S|].
  apply IH, act_same_shared, S.
Qed.

Lemma dispatch_writes p e :
  same_shared (self (dispatch p e)) (fold_left act (writes p e) (self p)).
Proof.
  unfold writes, dispatch, try_body, accumulate, except_clause, same_shared.
  destruct e; try destruct (is_server (self p));
    repeat match goal with
           | |- context [ws_send ?w ?x] => destruct (ws_send w x) as [? [?|]]
           end; simpl; auto.
Qed.

(** The shared fields after the loop are what the writes of the loop,
    made one at a time, leave. *)
Lemma for_events_writes q : forall p,
  same_shared (self (for_events q p))
    (fold_left act (pass_writes q p) (self p)).
Proof.
  induction q as [|e q IH]; intros p; simpl.
  - unfold same_shared; auto.
  - rewrite fold_left_app.
    destruct (IH (dispatch p e)) as (B & F & C).
    destruct (fold_act_same_shared (pass_writes q (dispatch p e))
                (dispatch_writes p e)) as (B' & F' & C').
    unfold same_shared. rewrite B, F, C. auto.
Qed.

(** So are they after [_handle_events], whose last statement writes to the
    socket only; the thread then makes one more write,
    [self.connected = ...], with what the pass returned. *)
Lemma handle_events_writes c :
  same_shared (snd (handle_events c))
    (fold_left act (pass_writes (ws_queue c) (start_pass c)) c).
Proof.
  destruct (handle_events_fields c) as (B & F & C & _).
  destruct (for_events_writes (ws_queue c) (start_pass c)) as (B' & F' & C').
  destruct (for_events_frame (ws_queue c) (start_pass c)) as (C'' & _).
  assert (S : same_shared (self (start_pass c)) c)
    by (unfold same_shared; simpl; auto).
  destruct (fold_act_same_shared
              (pass_writes (ws_queue c) (start_pass c)) S) as (B2 & F2 & C2).
  unfold same_shared.
  rewrite B, F, C, <- B2, <- F2, <- C2, <- B', <- F', <- C', C''.
  auto.
Qed.

End Properties.

(** * The statements at concrete connections *)

Import Mock.
Import Budget.

(** ** C1 *)

(** A closed connection holding the message ["a"]: [receive] raises and
    does not return the message, which stays in the buffer. *)
Lemma closed_receive_keeps_message :
  connected closed_with_message = false /\
  input_buffer closed_with_message = [Text "a"] /\
  option_map (@result state) (receive None [] closed_with_message)
  = Some (Raise ConnectionClosed) /\
  option_map (@result state) (receive None [] closed_with_message)
  <> Some (Return (Some (Text "a"))) /\
  option_map (fun r => input_buffer (after r))
    (receive None [] closed_with_message)
  = Some [Text "a"].
Proof. repeat split; discriminate. Qed.

Lemma receive_closed_raises_at_closed_with_message :
  connected closed_with_message = false /\
  receive None [] closed_with_message
  = Some {| result := Raise ConnectionClosed; after := closed_with_message;
            pending := []; elapsed := 0 |} /\
  receive_many 3 None [] closed_with_message
  = Some (repeat (Raise ConnectionClosed) 3, closed_with_message, []).
Proof.
  split; [reflexivity|].
  destruct (receive_closed_raises None [] closed_with_message eq_refl)
    as (R & M).
  split; [exact R|exact (M 3)].
Defined.

(** ** C2 *)

Lemma handle_close_event_at_ping_then_close :
  ws_queue ping_then_close
  = [TextMessage "bye"; Ping [x01]]
    ++ CloseConnection (PyInt 1000) PyNone :: [] /\
  close_is_last (ws_queue ping_then_close) = true /\
  input_buffer (snd (handle_events ping_then_close)) = [Text "bye"] /\
  event_flag (snd (handle_events ping_then_close)) = true /\
  fst (handle_events ping_then_close) = Return false /\
  sent_log (sock (snd (handle_events ping_then_close)))
  = [[x8a; x01] ++ x88 :: list_byte_of_string "1000"].
Proof.
  split; [reflexivity|]. split; [reflexivity|].
  pose proof (@handle_close_event state engine ping_then_close
                [TextMessage "bye"; Ping [x01]] (PyInt 1000) PyNone []
                eq_refl eq_refl) as T.
  cbv zeta in T.
  destruct T as (_ & _ & _ & S & B & _ & F & _ & R & _).
  destruct (S eq_refl idle (x88 :: list_byte_of_string "1000") eq_refl)
    as (_ & L).
  split; [exact B|]. split; [exact F|]. split; [exact (R eq_refl eq_refl)|].
  exact (L eq_refl eq_refl ltac:(discriminate)).
Defined.

(** ** C3 *)

Lemma receive_fifo_at_two_messages :
  connected (open_conn [Text "a"; Binary [x01]] false false idle []) = true /\
  receive_many 2 None []
    (open_conn [Text "a"; Binary [x01]] false false idle [])
  = Some ([Return (Some (Text "a")); Return (Some (Binary [x01]))],
          open_conn [] false false idle [], []).
Proof.
  split; [reflexivity|].
  exact (proj1 (proj2 (proj2 (proj2 (@receive_fifo state engine))))
           None [] (open_conn [Text "a"; Binary [x01]] false false idle [])
           eq_refl).
Defined.

(** ** C4 *)



(** ** C5 *)

Lemma receive_no_data_at_pending_notification :
  connected (open_conn [] true false idle []) = true /\
  input_buffer (open_conn [] true false idle []) = [] /\
  receive (Some 0) [(3, Append (Text "a")); (0, Notify)]
    (open_conn [] true false idle [])
  = Some {| result := Return None;
            after := open_conn [] false false idle [];
            pending := [(3, Append (Text "a")); (0, Notify)];
            elapsed := 0 |}.
Proof.
  split; [reflexivity|]. split; [reflexivity|].
  exact (proj1 (@receive_no_data state)
           [(3, Append (Text "a")); (0, Notify)]
           (open_conn [] true false idle []) eq_refl eq_refl).
Defined.

(** ** C6 *)

Lemma send_closed_iff_at_mock :
  connected (open_conn [] false false idle []) = true /\
  send (open_conn [] false false idle []) (Obj (PyInt 42))
  = (Return tt,
     with_sock {| sent_log := [x81 :: list_byte_of_string "42"];
                  tx_error := None; closed := false |}
       (open_conn [] false false idle [])) /\
  fst (send closed_with_message (Bytes [x01])) = Raise ConnectionClosed.
Proof.
  split; [reflexivity|]. split.
  - destruct (send_closed_iff (open_conn [] false false idle [])
                (Obj (PyInt 42))) as (_ & _ & _ & _ & S & _).
    exact (S eq_refl idle _ eq_refl eq_refl eq_refl).
  - destruct (send_closed_iff closed_with_message (Bytes [x01]))
      as ((_ & S) & _).
    exact (S eq_refl).
Defined.

(** ** C7 *)

(** A rejection that the engine decodes from the second read only: the
    one read of the handshake gives no event, the constructor returns a
    connection with [connected] true, and the thread, which has no
    branch for the event, reads it and goes on. *)
Lemma late_rejection_is_missed :
  snd (mock_receive_data
         (fst (mock_receive_data late_rejection [x00])) [x01])
  = [RejectConnection 403] /\
  fst (Client_init "example.com" "/ws" healthy late_rejection
         [RxData [x00]; RxData [x01]])
  <> Raise (ConnectionError 403) /\
  (exists c',
     Client_init "example.com" "/ws" healthy late_rejection
       [RxData [x00]; RxData [x01]]
     = (Return c', [RxData [x01]]) /\
     connected c' = true /\
     fst (thread_loop [RxData [x01]] c') = Reading /\
     connected (snd (thread_loop [RxData [x01]] c')) = true).
Proof.
  split; [reflexivity|]. split; [discriminate|].
  eexists. split; [reflexivity|]. repeat split.
Qed.

Lemma client_handshake_rejected_at_403 :
  closed healthy = false /\ tx_error healthy = None /\
  Client_init "example.com" "/ws" healthy rejecting [RxData [x00]; RxData [x01]]
  = (Raise (ConnectionError 403), [RxData [x01]]).
Proof.
  split; [reflexivity|]. split; [reflexivity|].
  exact (proj2 (proj2
    (@client_handshake_rejected state engine "example.com" "/ws" healthy
       rejecting _ _ [x00] [RxData [x01]] _ [] 403 [] eq_refl eq_refl eq_refl
       eq_refl eq_refl))).
Defined.

(** ** C8 *)

Lemma handle_ping_at_one_ping :
  ws_queue one_ping = [] ++ Ping [x01] :: [] /\
  fst (handle_events one_ping) = Return true /\
  sent_log (sock (snd (handle_events one_ping))) = [[x8a; x01]] /\
  input_buffer (snd (handle_events one_ping)) = [].
Proof.
  split; [reflexivity|].
  pose proof (@handle_ping state engine one_ping [] [x01] [] idle [x8a; x01]
                eq_refl eq_refl) as T.
  cbv zeta in T. destruct T as (_ & _ & _ & _ & S).
  destruct (S eq_refl eq_refl eq_refl eq_refl ltac:(discriminate))
    as (R & L & B & _).
  split; [exact R|]. split; [exact L|exact B].
Defined.

(** ** C9 *)

(** Two notifications, 3 and then 4 ticks into their waits, with a timeout
    of 5: the call returns [None] after 12 ticks. *)
Lemma receive_timeout_rearmed_at_3_4 :
  Forall (fun d => d < 5) [3; 4] /\
  receive (Some 5) [(3, Notify); (4, Notify)]
    (open_conn [] false false idle [])
  = Some {| result := Return None;
            after := open_conn [] false false idle [];
            pending := []; elapsed := 12 |} /\
  5 < 12.
Proof.
  assert (D : Forall (fun d => d < 5) [3; 4])
    by (repeat (constructor; try lia)).
  split; [exact D|].
  destruct (@receive_timeout_rearmed state 5 [3; 4]
              (open_conn [] false false idle []) eq_refl eq_refl eq_refl D)
    as (R & L).
  split; [exact R|]. apply L. simpl. lia.
Defined.

(** The client's thread on a batch that is a close makes two writes, the
    signal and then [connected = False].  When the first comes 3 ticks into
    a [receive(5)] and the second 4 ticks later, the call finds the
    connection open after the signal, waits 5 ticks more and returns
    [None] after 8. *)
Example receive_during_close :
  pass_writes [CloseConnection (PyInt 1000) PyNone]
    (start_pass (open_conn [] false false idle []))
  = [Notify] /\
  option_map (fun r => (result r, elapsed r, connected (after r)))
    (receive (Some 5) [(3, Notify); (4, Connected false)]
       (open_conn [] false false idle []))
  = Some (Return None, 8, false).
Proof. split; reflexivity. Qed.

(** ** C10 *)

Lemma close_falsy_reason_at_zero :
  truthy (PyInt 0) = false /\
  close_event (PyInt 0) PyNone = CloseConnection (PyInt 1000) PyNone /\
  close (open_conn [] false false idle []) (PyInt 0) PyNone
  = (Return tt,
     with_sock {| sent_log := [x88 :: list_byte_of_string "1000"];
                  tx_error := None; closed := false |}
       (open_conn [] false false idle [])).
Proof.
  split; [reflexivity|].
  destruct (close_falsy_reason (open_conn [] false false idle []) (PyInt 0)
              PyNone eq_refl) as (_ & _ & E & _ & _ & S).
  split; [exact E|].
  exact (S idle _ eq_refl eq_refl eq_refl).
Defined.

(** * More of the adapter *)

Section Further.

Context {W : Type} `{Engine W}.

Implicit Types (c : conn W) (p : pass W) (env : schedule).

(** ** The thread *)

Lemma receive_data_frame c in_data :
  connected (receive_data c in_data) = connected c /\
  input_buffer (receive_data c in_data) = input_buffer c /\
  event_flag (receive_data c in_data) = event_flag c /\
  sock (receive_data c in_data) = sock c /\
  is_server (receive_data c in_data) = is_server c.
Proof.
  unfold receive_data. destruct (ws_receive_data (ws c) in_data).
  repeat split.
Qed.

Lemma thread_loop_end incoming : forall c,
  match fst (thread_loop incoming c) with
  | Exited => connected (snd (thread_loop incoming c)) = false
  | Reading | Crashed _ => connected (snd (thread_loop incoming c)) = true
  end.
Proof.
  induction incoming as [|r incoming IH]; intros c.
  - simpl. destruct (connected c) eqn:E; simpl; exact E.
  - cbn [thread_loop]. destruct (connected c) eqn:E; [|simpl; exact E].
    destruct r as [in_data|k]; [|reflexivity].
    destruct (handle_events_fields (receive_data c in_data))
      as (_ & _ & C & _).
    destruct (receive_data_frame c in_data) as (C' & _).
    destruct (handle_events (receive_data c in_data)) as [[k|e|] c'];
      simpl in C; [apply IH| |]; simpl; congruence.
Qed.

(** X1.  Where [connected] stands when the thread stops or runs out of
    reads.  In the [while] loop it is false exactly if the thread has left
    the loop: a thread that waits in [sock.recv], or that an exception
    in the loop has killed, leaves it true.  For the thread as a whole:
    out of the loop it is false, waiting in [sock.recv] it is true, and
    an exception in the first pass kills the thread before the first
    [self.connected = ...], with [connected] as it was (false in a
    constructor). *)
Theorem thread_end_connected incoming c :
  (fst (thread_loop incoming c) = Exited
   <-> connected (snd (thread_loop incoming c)) = false) /\
  (fst (thread incoming c) = Exited ->
   connected (snd (thread incoming c)) = false) /\
  (fst (thread incoming c) = Reading ->
   connected (snd (thread incoming c)) = true) /\
  (forall e,
     fst (thread_start c) = Raise e ->
     fst (thread incoming c) = Crashed e /\
     connected (snd (thread incoming c)) = connected c) /\
  (forall e,
     fst (thread incoming c) = Crashed e ->
     fst (thread_start c) = Raise e \/
     connected (snd (thread incoming c)) = true).
Proof.
  split.
  { pose proof (thread_loop_end incoming c) as T.
    destruct (fst (thread_loop incoming c)); split; congruence. }
  unfold thread, thread_start.
  destruct (handle_events_fields c) as (_ & _ & C & _).
  pose proof (handle_events_not_block c) as NB.
  destruct (handle_events c) as [[k|e|] c'] eqn:X; simpl in C, NB;
    [| |congruence].
  - pose proof (thread_loop_end incoming (event_set (with_connected k c')))
      as T.
    destruct (fst (thread_loop incoming (event_set (with_connected k c'))));
      repeat split; try discriminate; auto.
  - simpl. split; [discriminate|]. split; [discriminate|]. split.
    + intros e' [= <-]. split; [reflexivity|exact C].
    + intros e' [= <-]. left. reflexivity.
Qed.

(** X2.  A read that raises ends the thread: [connected] becomes false,
    the signal is set, the buffer is left as it is and no further read
    is made; the next [receive] raises [ConnectionClosed], whatever the
    buffer holds. *)
Theorem thread_read_error c k rest timeout env :
  connected c = true ->
  thread_loop (RxError k :: rest) c
  = (Exited, event_set (with_connected false c)) /\
  input_buffer (snd (thread_loop (RxError k :: rest) c)) = input_buffer c /\
  event_flag (snd (thread_loop (RxError k :: rest) c)) = true /\
  option_map (@result W)
    (receive timeout env (snd (thread_loop (RxError k :: rest) c)))
  = Some (Raise ConnectionClosed).
Proof.
  intros E. cbn [thread_loop]. rewrite E. repeat split.
Qed.

(** What the last statement of [_handle_events] does when the socket
    refuses the write. *)
Lemma handle_events_write_fails c k :
  closed (sock c) = false -> tx_error (sock c) = Some k ->
  out_data (for_events (ws_queue c) (start_pass c)) <> [] ->
  handle_events c
  = (Raise (OSError k), self (for_events (ws_queue c) (start_pass c))).
Proof.
  intros C T N. unfold handle_events.
  destruct (for_events_frame (ws_queue c) (start_pass c)) as (_ & S & _).
  simpl in S.
  destruct (out_data (for_events (ws_queue c) (start_pass c))) as [|b bs];
    [contradiction|].
  unfold conn_sock_send, sock_send. rewrite S, C, T.
  destruct (for_events (ws_queue c) (start_pass c)) as [[] ? ?].
  simpl in *. subst. reflexivity.
Qed.

Lemma send_open c d :
  connected c = true -> fst (send c d) <> Raise ConnectionClosed.
Proof.
  intros E. unfold send, conn_sock_send, sock_send. rewrite E. simpl.
  destruct (ws_send (ws c) (classify d)) as [w [out|]]; simpl;
    [|discriminate].
  destruct (closed (sock c)); [discriminate|].
  destruct (tx_error (sock c)); discriminate.
Qed.

(** X3.  When a pass has bytes to write and the socket raises, the
    exception kills the thread before [self.connected = ...]: the thread
    is gone, [connected] is still true, and [send] does not raise
    [ConnectionClosed]. *)
Theorem thread_write_error c in_data rest k d :
  connected c = true ->
  closed (sock c) = false -> tx_error (sock c) = Some k ->
  out_data (for_events (ws_queue (receive_data c in_data))
              (start_pass (receive_data c in_data))) <> [] ->
  fst (thread_loop (RxData in_data :: rest) c) = Crashed (OSError k) /\
  connected (snd (thread_loop (RxData in_data :: rest) c)) = true /\
  fst (send (snd (thread_loop (RxData in_data :: rest) c)) d)
  <> Raise ConnectionClosed.
Proof.
  intros E C T N.
  destruct (receive_data_frame c in_data) as (C1 & _ & _ & S1 & _).
  assert (X : thread_loop (RxData in_data :: rest) c
              = (Crashed (OSError k),
                 self (for_events (ws_queue (receive_data c in_data))
                         (start_pass (receive_data c in_data))))).
  { cbn [thread_loop]. rewrite E.
    rewrite (@handle_events_write_fails _ k); try rewrite S1; auto. }
  rewrite X. cbn [fst snd].
  destruct (for_events_frame (ws_queue (receive_data c in_data))
              (start_pass (receive_data c in_data))) as (C2 & _).
  simpl in C2.
  assert (K : connected
                (self (for_events (ws_queue (receive_data c in_data))
                         (start_pass (receive_data c in_data)))) = true)
    by congruence.
  split; [reflexivity|]. split; [exact K|].
  apply send_open, K.
Qed.

(** ** What a pass returns, signals and writes *)

Lemma dispatch_completed p e p' : try_body p e = Completed p' -> dispatch p e = p'.
Proof. unfold dispatch. intros ->. reflexivity. Qed.

Lemma try_body_completed_keep_going p e p' :
  try_body p e = Completed p' ->
  keep_going p' = keep_going p && negb (is_close e).
Proof.
  unfold try_body, accumulate.
  destruct e; try destruct (is_server (self p));
    repeat match goal with
           | |- context [ws_send ?w ?x] => destruct (ws_send w x) as [? [?|]]
           end;
    intros [= <-]; simpl; rewrite ?andb_true_r, ?andb_false_r; reflexivity.
Qed.

Lemma try_body_completed_event_flag p e p' :
  try_body p e = Completed p' ->
  event_flag (self p')
  = event_flag (self p) || (is_close e || is_message e).
Proof.
  unfold try_body, accumulate.
  destruct e; try destruct (is_server (self p));
    repeat match goal with
           | |- context [ws_send ?w ?x] => destruct (ws_send w x) as [? [?|]]
           end;
    intros [= <-]; simpl; rewrite ?orb_true_r, ?orb_false_r; reflexivity.
Qed.

(** X4.  The loop of a pass ends with [keep_going] true exactly when the
    batch holds no [CloseConnection] and the engine raised on no reply;
    with a socket that takes the write this is what [_handle_events]
    returns, and so what the thread stores in [connected]. *)
Theorem handle_events_returns c :
  keep_going (for_events (ws_queue c) (start_pass c))
  = negb (existsb is_close (ws_queue c))
    && negb (raises (ws_queue c) (start_pass c)) /\
  (closed (sock c) = false -> tx_error (sock c) = None ->
   fst (handle_events c)
   = Return (negb (existsb is_close (ws_queue c))
             && negb (raises (ws_queue c) (start_pass c)))).
Proof.
  assert (G : forall q p,
    keep_going (for_events q p)
    = keep_going p && (negb (existsb is_close q) && negb (raises q p))).
  { induction q as [|e q IH]; intros p; cbn [for_events existsb raises].
    - simpl. rewrite andb_true_r. reflexivity.
    - destruct (try_body p e) as [p'|p'] eqn:T.
      + rewrite (dispatch_completed _ _ T), IH,
          (try_body_completed_keep_going _ _ T).
        destruct (keep_going p), (is_close e); reflexivity.
      + rewrite for_events_keep_going
          by (destruct (dispatch_raised _ _ T) as (_ & K & _); exact K).
        rewrite andb_false_r, andb_false_r. reflexivity. }
  split; [apply (G (ws_queue c) (start_pass c))|].
  intros C T. destruct (handle_events_healthy c C T) as (R & _).
  rewrite R. f_equal. apply (G (ws_queue c) (start_pass c)).
Qed.

(** X5.  A pass sets the signal exactly when the batch holds a message or
    a [CloseConnection], or the engine raised on a reply; otherwise the
    flag is as it was: a batch of pings that are answered wakes no
    [receive]. *)
Theorem handle_events_signals c :
  event_flag (snd (handle_events c))
  = event_flag c
    || existsb (fun e => is_close e || is_message e) (ws_queue c)
    || raises (ws_queue c) (start_pass c).
Proof.
  assert (G : forall q p,
    event_flag (self (for_events q p))
    = event_flag (self p)
      || existsb (fun e => is_close e || is_message e) q
      || raises q p).
  { induction q as [|e q IH]; intros p; cbn [for_events existsb raises].
    - rewrite !orb_false_r. reflexivity.
    - destruct (try_body p e) as [p'|p'] eqn:T.
      + rewrite (dispatch_completed _ _ T), IH,
          (try_body_completed_event_flag _ _ T).
        destruct (event_flag (self p)), (is_close e), (is_message e);
          reflexivity.
      + rewrite for_events_event_flag
          by (destruct (dispatch_raised _ _ T) as (_ & _ & F & _); exact F).
        rewrite orb_true_r. reflexivity. }
  destruct (handle_events_fields c) as (_ & F & _). rewrite F.
  apply (G (ws_queue c) (start_pass c)).
Qed.

(** X6.  A pass calls [sock.send] at most once, after the loop, and
    never when there is nothing to send: the log of the writes grows by
    the accumulated bytes, in one entry, or not at all. *)
Theorem handle_events_one_write c :
  sent_log (sock (snd (handle_events c))) = sent_log (sock c) \/
  (out_data (for_events (ws_queue c) (start_pass c)) <> [] /\
   fst (handle_events c)
   = Return (keep_going (for_events (ws_queue c) (start_pass c))) /\
   sent_log (sock (snd (handle_events c)))
   = sent_log (sock c)
     ++ [out_data (for_events (ws_queue c) (start_pass c))]).
Proof.
  unfold handle_events.
  destruct (for_events_frame (ws_queue c) (start_pass c)) as (_ & S & _).
  simpl in S.
  destruct (out_data (for_events (ws_queue c) (start_pass c)))
    as [|b bs] eqn:O.
  - left. simpl. rewrite S. reflexivity.
  - unfold conn_sock_send, sock_send. rewrite S.
    destruct (closed (sock c)); [left; reflexivity|].
    destruct (tx_error (sock c)); [left; reflexivity|].
    right. simpl. repeat split. discriminate.
Qed.

(** X7.  The thread only appends to [input_buffer]: what was buffered
    stays, in its order, at the front, whatever is read and however the
    thread ends. *)
Theorem thread_loop_keeps_buffer incoming : forall c,
  exists more,
    input_buffer (snd (thread_loop incoming c)) = input_buffer c ++ more.
Proof.
  induction incoming as [|r incoming IH]; intros c; cbn [thread_loop];
    destruct (connected c);
    try (exists []; simpl; rewrite app_nil_r; reflexivity).
  destruct r as [in_data|k];
    [|exists []; simpl; rewrite app_nil_r; reflexivity].
  pose proof (handle_events_fields (receive_data c in_data)) as (B & _).
  rewrite for_events_input_buffer in B. simpl in B.
  destruct (receive_data_frame c in_data) as (_ & B' & _).
  rewrite B' in B.
  destruct (handle_events (receive_data c in_data)) as [[k|e|] c'];
    simpl in B; try (eexists; exact B).
  destruct (IH (with_connected k c')) as (more & M).
  rewrite M. simpl. rewrite B, <- app_assoc. eexists; reflexivity.
Qed.

(** ** [send] and the socket *)

(** X8.  [send] writes all or nothing: when it returns, the log of the
    writes has one more entry, the bytes the engine encoded; when it
    raises ([ConnectionClosed], [LocalProtocolError] or the error of the
    socket) nothing is written.  In no case does it change [connected],
    the signal or the buffer. *)
Theorem send_all_or_nothing c d :
  match fst (send c d) with
  | Return _ =>
      exists w out,
        ws_send (ws c) (classify d) = (w, Encoded out) /\
        sent_log (sock (snd (send c d))) = sent_log (sock c) ++ [out]
  | _ => sent_log (sock (snd (send c d))) = sent_log (sock c)
  end /\
  connected (snd (send c d)) = connected c /\
  event_flag (snd (send c d)) = event_flag c /\
  input_buffer (snd (send c d)) = input_buffer c.
Proof.
  unfold send, conn_sock_send, sock_send.
  destruct (connected c) eqn:E; cbn [negb]; [|simpl; auto].
  destruct (ws_send (ws c) (classify d)) as [w [out|]] eqn:S;
    [|simpl; auto].
  cbn [sock with_ws].
  destruct (closed (sock c)) eqn:C; [simpl; auto|].
  destruct (tx_error (sock c)) eqn:T; [simpl; auto|].
  simpl. split; [exists w, out; auto|auto].
Qed.

(** ** How [receive] ends *)

Lemma wait_clear_how left env : forall c now,
  match how (wait_clear left env c now) with
  | Woken => True
  | TimedOut => left <> None
  | Forever => left = None
  end.
Proof.
  revert left. induction env as [|[d a] env IH]; intros left c now.
  - destruct left; simpl; congruence.
  - cbn [wait_clear]. destruct left as [t|]; simpl.
    + destruct (t <=? d)%nat; simpl; [discriminate|].
      destruct a; simpl; auto;
        match goal with
        | |- match how (wait_clear ?l ?e ?c0 ?n) with _ => _ end =>
            pose proof (IH l c0 n) as X;
            destruct (how (wait_clear l e c0 n)); auto; discriminate
        end.
    + destruct a; simpl; auto; apply (IH None).
Qed.

Lemma receive_loop_ends timeout fuel : forall env c now r,
  receive_loop fuel timeout env c now = Some r ->
  match result r with
  | Return None => timeout <> None
  | Return (Some _) => connected (after r) = true
  | Raise e => e = ConnectionClosed /\ connected (after r) = false
  | Block => timeout = None
  end.
Proof.
  induction fuel as [|fuel IH]; intros env c now r; simpl;
    destruct (connected c) eqn:E; simpl;
    destruct (input_buffer c) as [|m rest] eqn:B; simpl;
    try discriminate; try (intros [= <-]; simpl; auto).
  pose proof (wait_clear_how timeout env c now) as Hw.
  unfold event_wait. destruct (event_flag c); simpl.
  - apply IH.
  - destruct (how (wait_clear timeout env c now)).
    + apply IH.
    + intros [= <-]. exact Hw.
    + intros [= <-]. exact Hw.
Qed.

(** X9.  How a [receive] call can end.  It returns [None] only when it
    was given a timeout, and fails to return only when it was given none;
    the only exception it raises is [ConnectionClosed], and then
    [connected] is false; when it returns a message [connected] is
    true. *)
Theorem receive_ends timeout env c r :
  receive timeout env c = Some r ->
  match result r with
  | Return None => timeout <> None
  | Return (Some _) => connected (after r) = true
  | Raise e => e = ConnectionClosed /\ connected (after r) = false
  | Block => timeout = None
  end.
Proof. apply receive_loop_ends. Qed.

(** X10.  A message that the thread appends and signals while [receive]
    waits, before the timeout is over (or with no timeout), is what the
    call returns, at the time of the signal; the buffer is empty again
    and the flag is clear. *)
Theorem receive_wakes_on_message timeout d1 d2 m env c :
  connected c = true -> input_buffer c = [] -> event_flag c = false ->
  match timeout with Some t => d1 + d2 < t | None => True end ->
  receive timeout ((d1, Append m) :: (d2, Notify) :: env) c
  = Some {| result := Return (Some m); after := c; pending := env;
            elapsed := d1 + d2 |}.
Proof.
  intros E B F L. unfold receive.
  assert (Hw : event_wait timeout ((d1, Append m) :: (d2, Notify) :: env) c 0
               = {| how := Woken; at_time := d1 + d2; env_left := env;
                    conn_after :=
                      event_set (with_input_buffer (input_buffer c ++ [m]) c) |}).
  { unfold event_wait. rewrite F. cbn [wait_clear].
    destruct timeout as [t|].
    - replace (t <=? d1)%nat with false by (symmetry; apply Nat.leb_gt; lia).
      replace (t - d1 <=? d2)%nat with false
        by (symmetry; apply Nat.leb_gt; lia).
      reflexivity.
    - reflexivity. }
  rewrite receive_loop_woken by (rewrite ?Hw; auto).
  rewrite Hw. cbn [how env_left conn_after at_time].
  rewrite receive_loop_pop with (m := m) (rest := [])
    by (simpl; rewrite ?B; auto).
  do 2 f_equal. destruct c; simpl in *; subst; reflexivity.
Qed.

(** X11.  The signal of a [CloseConnection] comes before
    [self.connected = False]: the writes of the thread for such a batch
    are [Notify] and then [Connected false].  A [receive] without timeout
    that the signal wakes before the second write finds the connection
    open, waits again, and never returns, although [connected] is false
    from then on. *)
Theorem receive_misses_close d1 d2 code reason p c :
  connected c = true -> input_buffer c = [] -> event_flag c = false ->
  pass_writes [CloseConnection code reason] p = [Notify] /\
  receive None [(d1, Notify); (d2, Connected false)] c
  = Some {| result := Block; after := with_connected false c; pending := [];
            elapsed := d1 + d2 |}.
Proof.
  intros E B F. split; [reflexivity|].
  unfold receive.
  assert (Hw : event_wait None [(d1, Notify); (d2, Connected false)] c 0
               = {| how := Woken; at_time := d1;
                    env_left := [(d2, Connected false)];
                    conn_after := event_set c |})
    by (unfold event_wait; rewrite F; reflexivity).
  rewrite receive_loop_woken by (rewrite ?Hw; auto).
  rewrite Hw. cbn [how env_left conn_after at_time].
  rewrite event_clear_set, event_clear_clear by exact F.
  cbn [receive_loop List.length]. rewrite E, B. cbn [is_empty andb].
  unfold event_wait. rewrite F. reflexivity.
Qed.

(** ** [close] *)

(** X12.  [Base.close] never raises [BrokenPipeError]: with a socket
    that raises it the call returns as if the frame had gone out, while
    any other error of the socket is raised.  It does not change
    [connected], and it does not close the socket. *)
Theorem close_swallows_broken_pipe c reason message :
  fst (close c reason message) <> Raise (OSError BrokenPipeError) /\
  connected (snd (close c reason message)) = connected c /\
  closed (sock (snd (close c reason message))) = closed (sock c) /\
  (forall w b k,
     ws_send (ws c) (close_event reason message) = (w, Encoded b) ->
     closed (sock c) = false -> tx_error (sock c) = Some k ->
     close c reason message
     = (match k with
        | BrokenPipeError => Return tt
        | _ => Raise (OSError k)
        end, with_ws w c)).
Proof.
  unfold close, conn_sock_send, sock_send.
  destruct (ws_send (ws c) (close_event reason message)) as [w [b|]] eqn:S.
  - cbn [sock with_ws].
    destruct (closed (sock c)) eqn:C.
    + simpl. rewrite C. repeat split; try discriminate.
    + destruct (tx_error (sock c)) as [k|] eqn:T.
      * destruct k; simpl; rewrite ?C; repeat split; try discriminate;
          intros w' b' k' [= <- <-] _ [= <-]; destruct c; reflexivity.
      * simpl. repeat split; discriminate.
  - simpl. repeat split; discriminate.
Qed.

(** X13.  [Client.close] closes the socket exactly when the close of
    [Base] returns.  After a [Client.close] that returned nothing can be
    sent on the connection: neither a second [close] nor a [send]
    returns. *)
Theorem Client_close_once c reason message :
  (fst (Client_close c reason message) = Return tt
   <-> fst (close c reason message) = Return tt) /\
  (fst (Client_close c reason message) <> Return tt ->
   closed (sock (snd (Client_close c reason message))) = closed (sock c)) /\
  (fst (Client_close c reason message) = Return tt ->
   closed (sock (snd (Client_close c reason message))) = true /\
   forall reason' message' d,
     fst (Client_close (snd (Client_close c reason message)) reason' message')
     <> Return tt /\
     fst (send (snd (Client_close c reason message)) d) <> Return tt).
Proof.
  destruct (close_swallows_broken_pipe c reason message) as (_ & _ & K & _).
  unfold Client_close.
  destruct (close c reason message) as [[[]|e|] c'] eqn:X; simpl in *.
  - split; [tauto|]. split; [congruence|]. intros _. split; [reflexivity|].
    intros reason' message' d. split.
    + unfold close, conn_sock_send, sock_send.
      destruct (ws_send _ _) as [w [b|]]; simpl; discriminate.
    + unfold send, conn_sock_send, sock_send. simpl.
      destruct (connected c'); simpl; [|discriminate].
      destruct (ws_send _ _) as [w [b|]]; simpl; discriminate.
  - split; [split; discriminate|]. split; [auto|discriminate].
  - split; [split; discriminate|]. split; [auto|discriminate].
Qed.

(** ** The constructors *)

Variable format_object : envval -> string.

(** X14.  When the engine makes a [Request] of the synthetic request and
    encodes the acceptance, [Server(environ)] returns an open connection
    in the server role: the acceptance is the one thing written, the
    buffer is empty and the signal is clear. *)
Theorem Server_init_accepts wsgi s w w1 host target w2 b :
  closed s = false -> tx_error s = None ->
  ws_receive_data w (Server_handshake_data format_object wsgi)
  = (w1, [Request host target]) ->
  ws_send w1 AcceptConnection = (w2, Encoded b) -> b <> [] ->
  Server_init format_object wsgi s w
  = Return {| sock := {| sent_log := sent_log s ++ [b]; tx_error := None;
                         closed := false |};
              input_buffer := []; event_flag := false; connected := true;
              is_server := true; ws := w2; ws_queue := [] |}.
Proof.
  intros C T R A N.
  unfold Server_init, Server_handshake, receive_data, thread_start,
    handle_events. simpl. rewrite R. simpl.
  unfold dispatch, try_body, accumulate. simpl. rewrite A. simpl.
  destruct b as [|x b]; [contradiction|].
  unfold conn_sock_send, sock_send. simpl. rewrite C, T. reflexivity.
Qed.

(** X15.  When the engine raises on the acceptance, the constructor does
    not raise: it returns a connection that is not connected, to which
    nothing was written, and on which [send] and [receive] raise
    [ConnectionClosed]. *)
Theorem Server_init_refused wsgi s w w1 host target w2 :
  ws_receive_data w (Server_handshake_data format_object wsgi)
  = (w1, [Request host target]) ->
  ws_send w1 AcceptConnection = (w2, ProtocolError) ->
  exists c',
    Server_init format_object wsgi s w = Return c' /\
    connected c' = false /\ sock c' = s /\
    (forall d, fst (send c' d) = Raise ConnectionClosed) /\
    (forall timeout env,
       option_map (@result W) (receive timeout env c')
       = Some (Raise ConnectionClosed)).
Proof.
  intros R A.
  eexists. split.
  - unfold Server_init, Server_handshake, receive_data, thread_start,
      handle_events. simpl. rewrite R. simpl.
    unfold dispatch, try_body, accumulate. simpl. rewrite A. simpl.
    reflexivity.
  - simpl. repeat split.
Qed.

(** X16.  When the engine makes no event of the synthetic request, the
    first pass has nothing to do and returns [True]: the constructor
    returns a connection with [connected] true although no acceptance
    was sent. *)
Theorem Server_init_without_request wsgi s w w1 :
  ws_receive_data w (Server_handshake_data format_object wsgi) = (w1, []) ->
  Server_init format_object wsgi s w
  = Return {| sock := s; input_buffer := []; event_flag := false;
              connected := true; is_server := true; ws := w1;
              ws_queue := [] |}.
Proof.
  intros R.
  unfold Server_init, Server_handshake, receive_data, thread_start,
    handle_events. simpl. rewrite R. reflexivity.
Qed.

Lemma handshake_events_accept pre post :
  existsb ends_handshake pre = false ->
  handshake_events (pre ++ AcceptConnection :: post) = (Return tt, post).
Proof.
  induction pre as [|e pre IH]; simpl; [reflexivity|].
  destruct e; simpl; try discriminate; exact IH.
Qed.

Lemma handshake_events_neither q :
  existsb ends_handshake q = false -> handshake_events q = (Return tt, []).
Proof.
  induction q as [|e q IH]; simpl; [reflexivity|].
  destruct e; simpl; try discriminate; exact IH.
Qed.

(** The handshake of the client when the request goes out and an answer
    is read: its outcome is that of the scan of the events. *)
Lemma Client_handshake_scans host target s w out w1 in_data rest w2 evs :
  ws_send w (Request host target) = (w1, Encoded out) ->
  closed s = false -> tx_error s = None ->
  ws_receive_data w1 in_data = (w2, evs) ->
  Client_handshake host target (RxData in_data :: rest) (new_conn s false w)
  = (fst (handshake_events evs),
     {| sock := {| sent_log := sent_log s ++ [out]; tx_error := None;
                   closed := false |};
        input_buffer := []; event_flag := false; connected := false;
        is_server := false; ws := w2;
        ws_queue := snd (handshake_events evs) |},
     rest).
Proof.
  intros S C T R.
  unfold Client_handshake. simpl. rewrite S.
  unfold conn_sock_send, sock_send. simpl. rewrite C, T.
  unfold receive_data. simpl. rewrite R. simpl.
  destruct (handshake_events evs). reflexivity.
Qed.

(** X17.  When the first event of the answer that ends the handshake is
    an [AcceptConnection], [Client.handshake] returns with [connected]
    still false and only the request written.  The events before the
    acceptance are dropped; those after it stay with the engine, and the
    first [_handle_events] of the thread is the pass that dispatches
    them: it appends their messages to the buffer, in their order. *)
Theorem Client_handshake_accepted
    host target s w out w1 in_data rest w2 pre post :
  ws_send w (Request host target) = (w1, Encoded out) ->
  closed s = false -> tx_error s = None ->
  ws_receive_data w1 in_data = (w2, pre ++ AcceptConnection :: post) ->
  existsb ends_handshake pre = false ->
  Client_handshake host target (RxData in_data :: rest) (new_conn s false w)
  = (Return tt,
     {| sock := {| sent_log := sent_log s ++ [out]; tx_error := None;
                   closed := false |};
        input_buffer := []; event_flag := false; connected := false;
        is_server := false; ws := w2; ws_queue := post |},
     rest) /\
  input_buffer
    (snd (handle_events
            (snd (fst (Client_handshake host target (RxData in_data :: rest)
                         (new_conn s false w))))))
  = messages_of post.
Proof.
  intros S C T R P.
  rewrite (@Client_handshake_scans host target s w out w1 in_data rest w2 _
             S C T R).
  rewrite (@handshake_events_accept pre post P). cbn [fst snd].
  split; [reflexivity|].
  match goal with
  | |- input_buffer (snd (handle_events ?c0)) = _ =>
      destruct (handle_events_fields c0) as (B & _); rewrite B
  end.
  rewrite for_events_input_buffer. reflexivity.
Qed.

(** X18.  When the answer holds neither an acceptance nor a rejection,
    the handshake ends with the events and does not raise: the
    constructor returns a connection with [connected] true, all the
    events of the answer are dropped, and only the request was
    written. *)
Theorem Client_init_unanswered host target s w out w1 in_data rest w2 evs :
  ws_send w (Request host target) = (w1, Encoded out) ->
  closed s = false -> tx_error s = None ->
  ws_receive_data w1 in_data = (w2, evs) ->
  existsb ends_handshake evs = false ->
  Client_init host target s w (RxData in_data :: rest)
  = (Return {| sock := {| sent_log := sent_log s ++ [out]; tx_error := None;
                          closed := false |};
               input_buffer := []; event_flag := false; connected := true;
               is_server := false; ws := w2; ws_queue := [] |},
     rest).
Proof.
  intros S C T R P.
  unfold Client_init.
  rewrite (@Client_handshake_scans host target s w out w1 in_data rest w2 _
             S C T R).
  rewrite (@handshake_events_neither evs P). reflexivity.
Qed.

End Further.

(** * The environ of the server *)

(** ** The socket *)

(** X19.  The search for the socket follows the order of the [elif]
    chain: the object under ['werkzeug.socket'] is taken whatever else the
    environ holds, then that under ['gunicorn.socket'].  An environ with
    none of the keys the chain looks at raises [RuntimeError]; one that
    names Gevent in ['SERVER_SOFTWARE'] and has none of the other keys
    raises [KeyError] for ['wsgi.input']. *)
Theorem Server_socket_order wsgi :
  (forall v, env_get "werkzeug.socket" wsgi = Some v ->
             Server_socket wsgi = Obtained v) /\
  (forall v, env_get "werkzeug.socket" wsgi = None ->
             env_get "gunicorn.socket" wsgi = Some v ->
             Server_socket wsgi = Obtained v) /\
  (env_get "werkzeug.socket" wsgi = None ->
   env_get "gunicorn.socket" wsgi = None ->
   env_get "eventlet.input" wsgi = None ->
   (env_get "SERVER_SOFTWARE" wsgi = None ->
    Server_socket wsgi
    = RuntimeError "Cannot obtain socket from WSGI environment.") /\
   (forall software,
      env_get "SERVER_SOFTWARE" wsgi = Some (EnvStr software) ->
      String.prefix "gevent" software = true ->
      env_get "wsgi.input" wsgi = None ->
      Server_socket wsgi = KeyError "wsgi.input")).
Proof.
  unfold Server_socket, env_in. split; [|split].
  - intros v ->. reflexivity.
  - intros v -> ->. reflexivity.
  - intros -> -> ->. split.
    + intros ->. reflexivity.
    + intros software -> -> ->. reflexivity.
Qed.

(** ** The names of the headers *)

Lemma concat_cons a x xs :
  String.concat "-" (String a x :: xs) = String a (String.concat "-" (x :: xs)).
Proof. destruct xs; reflexivity. Qed.

Lemma split_not_nil sep s : split sep s <> [].
Proof.
  destruct s as [|a s]; simpl; [discriminate|].
  destruct (Ascii.eqb a sep); [discriminate|].
  destruct (split sep s); discriminate.
Qed.

(** [split], [capitalize] and [join] are one pass over the text. *)
Lemma header_name_scan s :
  String.concat "-" (map capitalize (split "_" s)) = train_case true s /\
  String.concat "-"
    (match split "_" s with
     | part :: parts => map_string lower part :: map capitalize parts
     | [] => []
     end)
  = train_case false s.
Proof.
  induction s as [|a s (IH1 & IH2)]; [split; reflexivity|].
  cbn [split train_case].
  destruct (Ascii.eqb a "_") eqn:E.
  - pose proof (@split_not_nil "_"%char s) as N.
    cbn [map capitalize map_string].
    destruct (split "_" s) as [|part parts] eqn:S; [contradiction|].
    cbn [String.concat]. cbn [map] in IH1.
    cbn [String.concat map] in *. rewrite IH1. split; reflexivity.
  - pose proof (@split_not_nil "_"%char s) as N.
    destruct (split "_" s) as [|part parts] eqn:S; [contradiction|].
    cbn [map capitalize map_string].
    rewrite !concat_cons, IH2. split; reflexivity.
Qed.

Lemma upper_not_underscore a :
  Ascii.eqb a "_" = false -> Ascii.eqb (upper a) "_" = false.
Proof. destruct a as [[] [] [] [] [] [] [] []]; intros E; try reflexivity; discriminate. Qed.

Lemma lower_not_underscore a :
  Ascii.eqb a "_" = false -> Ascii.eqb (lower a) "_" = false.
Proof. destruct a as [[] [] [] [] [] [] [] []]; intros E; try reflexivity; discriminate. Qed.

Lemma train_case_length s : forall start,
  String.length (train_case start s) = String.length s.
Proof.
  induction s as [|a s IH]; intros start; simpl; [reflexivity|].
  destruct (Ascii.eqb a "_"); simpl; rewrite IH; reflexivity.
Qed.

Lemma train_case_no_underscore s : forall start,
  occurs "_" (train_case start s) = false.
Proof.
  induction s as [|a s IH]; intros start; simpl; [reflexivity|].
  destruct (Ascii.eqb a "_") eqn:E; simpl; rewrite IH.
  - reflexivity.
  - destruct start;
      rewrite ?(upper_not_underscore _ E), ?(lower_not_underscore _ E);
      reflexivity.
Qed.

Lemma drop_length n : forall s, String.length (drop n s) = String.length s - n.
Proof.
  induction n as [|n IH]; intros s; simpl; [lia|].
  destruct s; simpl; [reflexivity|apply IH].
Qed.

(** X20.  The header name made of an environ key is the key without its
    first five characters, read once from left to right: every [_] is a
    [-], a letter at the start or after a [_] is in upper case and the
    other letters are in lower case.  So the name has no [_] and is five
    characters shorter than the key. *)
Theorem header_name_train_case key :
  header_name key = train_case true (drop 5 key) /\
  occurs "_" (header_name key) = false /\
  String.length (header_name key) = String.length key - 5.
Proof.
  assert (E : header_name key = train_case true (drop 5 key))
    by apply header_name_scan.
  rewrite E. split; [reflexivity|].
  split; [apply train_case_no_underscore|].
  rewrite train_case_length. apply drop_length.
Qed.

(** ** The synthetic request *)

Section Request.

Variable format_object : envval -> string.

Lemma string_app_assoc (a b c : string) :
  ((a ++ b) ++ c = a ++ (b ++ c))%string.
Proof. induction a as [|x a IH]; simpl; [reflexivity|]. rewrite IH. reflexivity. Qed.

Lemma encode_app s1 s2 : encode (s1 ++ s2) = encode s1 ++ encode s2.
Proof.
  unfold encode, list_byte_of_string.
  induction s1 as [|a s1 IH]; simpl; [reflexivity|]. rewrite IH. reflexivity.
Qed.

Lemma header_lines_app e1 e2 :
  header_lines format_object (e1 ++ e2)
  = header_lines format_object e1 ++ header_lines format_object e2.
Proof.
  induction e1 as [|item e1 IH]; simpl; [reflexivity|].
  rewrite IH, app_assoc. reflexivity.
Qed.

Lemma header_lines_filter wsgi :
  header_lines format_object (filter is_http_item wsgi)
  = header_lines format_object wsgi.
Proof.
  induction wsgi as [|[key value] wsgi IH]; simpl; [reflexivity|].
  unfold is_http_item at 1. simpl.
  destruct (String.prefix "HTTP_" key) eqn:P; simpl; rewrite ?P, IH;
    reflexivity.
Qed.

(** The lines of the headers are empty or end with CR LF. *)
Lemma header_lines_end wsgi :
  header_lines format_object wsgi = [] \/
  exists body, header_lines format_object wsgi = body ++ encode CRLF.
Proof.
  induction wsgi as [|[key value] wsgi IH]; simpl; [left; reflexivity|].
  destruct (String.prefix "HTTP_" key); simpl; [|exact IH].
  right. destruct IH as [-> | (body & ->)].
  - rewrite app_nil_r.
    exists (encode (header_name key ++ ": " ++ format format_object value)).
    rewrite <- encode_app, !string_app_assoc. reflexivity.
  - exists (encode (header_name key ++ ": " ++ format format_object value
                    ++ CRLF) ++ body).
    rewrite app_assoc. reflexivity.
Qed.

(** X21.  The request made for the engine depends on the environ only
    through the items whose key starts with [HTTP_], in their order: the
    other items add nothing.  It starts with the request line and always
    ends with an empty line, with or without headers. *)
Theorem Server_handshake_data_frame wsgi :
  Server_handshake_data format_object (filter is_http_item wsgi)
  = Server_handshake_data format_object wsgi /\
  (forall e1 e2,
     Server_handshake_data format_object (e1 ++ e2)
     = (encode "GET / HTTP/1.1" ++ encode CRLF)
       ++ header_lines format_object e1
       ++ header_lines format_object e2 ++ encode CRLF) /\
  (filter is_http_item wsgi = [] ->
   Server_handshake_data format_object wsgi
   = encode "GET / HTTP/1.1" ++ encode CRLF ++ encode CRLF) /\
  exists body,
    Server_handshake_data format_object wsgi
    = encode "GET / HTTP/1.1" ++ body ++ encode CRLF ++ encode CRLF.
Proof.
  unfold Server_handshake_data. split; [rewrite header_lines_filter; reflexivity|].
  split; [intros e1 e2; rewrite header_lines_app, <- !app_assoc; reflexivity|].
  split.
  - intros F. rewrite <- header_lines_filter, F. cbn [header_lines app].
    rewrite <- app_assoc. reflexivity.
  - destruct (header_lines_end wsgi) as [-> | (body & ->)].
    + exists []. cbn [app]. rewrite <- app_assoc. reflexivity.
    + exists (encode CRLF ++ body). rewrite <- !app_assoc. reflexivity.
Qed.

End Request.

(** * The further statements at concrete connections *)

(** A request is queued and the socket raises: the first pass kills the
    thread with [connected] still false. *)
Lemma thread_end_connected_at_first_pass :
  fst (thread_start
         (with_ws_queue [Request "example.com" "/"]
            (new_conn broken_pipe true idle)))
  = Raise (OSError BrokenPipeError) /\
  fst (thread [RxData []]
         (with_ws_queue [Request "example.com" "/"]
            (new_conn broken_pipe true idle)))
  = Crashed (OSError BrokenPipeError) /\
  connected
    (snd (thread [RxData []]
            (with_ws_queue [Request "example.com" "/"]
               (new_conn broken_pipe true idle))))
  = false.
Proof.
  split; [reflexivity|].
  exact (proj1 (proj2 (proj2 (proj2
    (thread_end_connected [RxData []]
       (with_ws_queue [Request "example.com" "/"]
          (new_conn broken_pipe true idle))))))
    (OSError BrokenPipeError) eq_refl).
Defined.

Lemma thread_read_error_at_buffered_message :
  connected (open_conn [Text "a"] false false idle []) = true /\
  option_map (@result state)
    (receive None []
       (snd (thread_loop [RxError ConnectionResetError]
               (open_conn [Text "a"] false false idle []))))
  = Some (Raise ConnectionClosed).
Proof.
  split; [reflexivity|].
  exact (proj2 (proj2 (proj2
    (thread_read_error (open_conn [Text "a"] false false idle [])
       ConnectionResetError [] None [] eq_refl)))).
Defined.

Lemma thread_write_error_at_ping_on_broken_pipe :
  fst (thread_loop [RxData [x00]] ping_on_broken_pipe)
  = Crashed (OSError BrokenPipeError) /\
  connected (snd (thread_loop [RxData [x00]] ping_on_broken_pipe)) = true.
Proof.
  destruct (@thread_write_error state engine ping_on_broken_pipe [x00] []
              BrokenPipeError (Bytes []) eq_refl eq_refl eq_refl
              ltac:(discriminate)) as (A & B & _).
  split; [exact A|exact B].
Defined.

Lemma handle_events_returns_at_one_ping :
  closed (sock one_ping) = false /\ tx_error (sock one_ping) = None /\
  fst (handle_events one_ping) = Return true.
Proof.
  split; [reflexivity|]. split; [reflexivity|].
  exact (proj2 (handle_events_returns one_ping) eq_refl eq_refl).
Defined.

Lemma receive_ends_at_timeout :
  receive (Some 2) [] (open_conn [] false false idle [])
  = Some {| result := Return None; after := open_conn [] false false idle [];
            pending := []; elapsed := 2 |} /\
  Some 2 <> None.
Proof.
  split; [reflexivity|].
  exact (@receive_ends state (Some 2) [] (open_conn [] false false idle [])
           _ eq_refl).
Defined.

Lemma receive_wakes_on_message_at_1_2 :
  1 + 2 < 5 /\
  receive (Some 5) [(1, Append (Text "a")); (2, Notify); (9, Notify)]
    (open_conn [] false false idle [])
  = Some {| result := Return (Some (Text "a"));
            after := open_conn [] false false idle [];
            pending := [(9, Notify)]; elapsed := 3 |}.
Proof.
  split; [lia|].
  apply (@receive_wakes_on_message state (Some 5) 1 2 (Text "a")
           [(9, Notify)] (open_conn [] false false idle []));
    try reflexivity.
  simpl. lia.
Defined.

Lemma receive_misses_close_at_3_4 :
  connected (open_conn [] false false idle []) = true /\
  receive None [(3, Notify); (4, Connected false)]
    (open_conn [] false false idle [])
  = Some {| result := Block;
            after := with_connected false (open_conn [] false false idle []);
            pending := []; elapsed := 7 |}.
Proof.
  split; [reflexivity|].
  exact (proj2 (@receive_misses_close state engine 3 4 (PyInt 1000) PyNone
                  (start_pass (open_conn [] false false idle []))
                  (open_conn [] false false idle [])
                  eq_refl eq_refl eq_refl)).
Defined.

Lemma close_swallows_broken_pipe_at_ping_on_broken_pipe :
  tx_error (sock ping_on_broken_pipe) = Some BrokenPipeError /\
  close ping_on_broken_pipe PyNone PyNone
  = (Return tt, ping_on_broken_pipe).
Proof.
  split; [reflexivity|].
  destruct (close_swallows_broken_pipe ping_on_broken_pipe PyNone PyNone)
    as (_ & _ & _ & S).
  exact (S _ _ BrokenPipeError eq_refl eq_refl eq_refl).
Defined.

Lemma Client_close_once_at_open :
  fst (Client_close (open_conn [] false false idle []) PyNone PyNone)
  = Return tt /\
  fst (Client_close
         (snd (Client_close (open_conn [] false false idle []) PyNone PyNone))
         PyNone PyNone)
  <> Return tt.
Proof.
  split; [reflexivity|].
  destruct (Client_close_once (open_conn [] false false idle []) PyNone PyNone)
    as (_ & _ & S).
  destruct (S eq_refl) as (_ & T).
  exact (proj1 (T PyNone PyNone (Bytes []))).
Defined.

Lemma Server_init_accepts_at_request :
  closed healthy = false /\ tx_error healthy = None /\
  Server_init (fun _ => "") [("HTTP_HOST", EnvStr "example.com")] healthy
    {| script := []; feed := [[Request "example.com" "/"]] |}
  = Return {| sock := {| sent_log := [[x48]]; tx_error := None;
                         closed := false |};
              input_buffer := []; event_flag := false; connected := true;
              is_server := true; ws := idle; ws_queue := [] |}.
Proof.
  split; [reflexivity|]. split; [reflexivity|].
  apply (@Server_init_accepts state engine (fun _ => "")
           [("HTTP_HOST", EnvStr "example.com")] healthy
           {| script := []; feed := [[Request "example.com" "/"]] |}
           idle "example.com" "/" idle [x48]);
    try reflexivity.
  discriminate.
Defined.

Lemma Server_init_refused_at_request :
  exists c',
    Server_init (fun _ => "") [] healthy
      {| script := [ProtocolError]; feed := [[Request "example.com" "/"]] |}
    = Return c' /\
    connected c' = false.
Proof.
  destruct (@Server_init_refused state engine (fun _ => "") [] healthy
              {| script := [ProtocolError];
                 feed := [[Request "example.com" "/"]] |}
              {| script := [ProtocolError]; feed := [] |}
              "example.com" "/" idle eq_refl eq_refl)
    as (c' & I & K & _).
  exists c'. split; [exact I|exact K].
Defined.

Lemma Server_init_without_request_at_idle :
  mock_receive_data idle (Server_handshake_data (fun _ => "") []) = (idle, []) /\
  Server_init (fun _ => "") [] healthy idle
  = Return {| sock := healthy; input_buffer := []; event_flag := false;
              connected := true; is_server := true; ws := idle;
              ws_queue := [] |}.
Proof.
  split; [reflexivity|].
  exact (@Server_init_without_request state engine (fun _ => "") [] healthy
           idle idle eq_refl).
Defined.

Lemma Client_handshake_accepted_at_early_and_late :
  existsb ends_handshake [TextMessage "early"] = false /\
  input_buffer
    (snd (handle_events
            (snd (fst (Client_handshake "example.com" "/ws" [RxData [x00]]
                         (new_conn healthy false
                            {| script := [];
                               feed := [[TextMessage "early";
                                         AcceptConnection;
                                         TextMessage "hello";
                                         BytesMessage [x01]]] |}))))))
  = [Text "hello"; Binary [x01]].
Proof.
  split; [reflexivity|].
  exact (proj2
    (@Client_handshake_accepted state engine "example.com" "/ws" healthy
       {| script := [];
          feed := [[TextMessage "early"; AcceptConnection;
                    TextMessage "hello"; BytesMessage [x01]]] |}
       _ _ [x00] [] _ [TextMessage "early"]
       [TextMessage "hello"; BytesMessage [x01]]
       eq_refl eq_refl eq_refl eq_refl eq_refl)).
Defined.

Lemma Client_init_unanswered_at_message :
  existsb ends_handshake [TextMessage "x"] = false /\
  fst (Client_init "example.com" "/ws" healthy
         {| script := []; feed := [[TextMessage "x"]] |} [RxData [x00]])
  = Return {| sock := {| sent_log := [x47 :: list_byte_of_string "/ws"];
                         tx_error := None; closed := false |};
              input_buffer := []; event_flag := false; connected := true;
              is_server := false; ws := idle; ws_queue := [] |}.
Proof.
  split; [reflexivity|].
  rewrite (@Client_init_unanswered state engine "example.com" "/ws" healthy
             {| script := []; feed := [[TextMessage "x"]] |}
             _ _ [x00] [] _ [TextMessage "x"]
             eq_refl eq_refl eq_refl eq_refl eq_refl).
  reflexivity.
Defined.

Lemma Server_socket_order_at_two_servers :
  env_get "werkzeug.socket"
    [("gunicorn.socket", EnvSocket broken_pipe);
     ("werkzeug.socket", EnvSocket healthy)]
  = Some (EnvSocket healthy) /\
  Server_socket
    [("gunicorn.socket", EnvSocket broken_pipe);
     ("werkzeug.socket", EnvSocket healthy)]
  = Obtained (EnvSocket healthy).
Proof.
  split; [reflexivity|].
  exact (proj1 (Server_socket_order
                  [("gunicorn.socket", EnvSocket broken_pipe);
                   ("werkzeug.socket", EnvSocket healthy)])
           (EnvSocket healthy) eq_refl).
Defined.

Lemma Server_handshake_data_frame_at_no_header :
  filter is_http_item [("PATH_INFO", EnvStr "/ws")] = [] /\
  Server_handshake_data (fun _ => "") [("PATH_INFO", EnvStr "/ws")]
  = encode "GET / HTTP/1.1" ++ encode CRLF ++ encode CRLF.
Proof.
  split; [reflexivity|].
  exact (proj1 (proj2 (proj2
    (Server_handshake_data_frame (fun _ => "") [("PATH_INFO", EnvStr "/ws")])))
    eq_refl).
Defined.
